(** * HopBop: the hotkey dispatcher and its config loader

    A shallow embedding of [src/main.py]: the event-tap callback
    [tap_callback], which debounces Option+digit hotkeys and queues
    application launches, and [load_mappings], which rebuilds the
    keycode -> bundle-id table from the [~/.hopbop] file; then the
    launcher loop [_launcher], the watcher's handler [on_modified] and
    the start-up in [main].

    Python values are modelled as follows.
    - [int] is [Z]; [flags & mask] is [Z.land].
    - [str] is a list of Unicode code points ([list N]).
    - the [mapping] dict is a [gmap Z pystr], the [_pressed_fired] set a
      [gset Z], the [_launch_q] queue the list of items put and not yet
      taken, oldest first.
    - module globals are the fields of one [State] record that every
      function takes and returns.
    - the callback's result [event] / [None] is an [option CGEvent]. *)

From stdpp Require Import gmap list strings.
From Stdlib Require Import ZArith NArith Ascii.

Local Open Scope Z_scope.

(** ** Python strings *)

Abbreviation pystr := (list N).

(** Code points of an ASCII literal, to write examples. *)
Definition py (s : string) : pystr :=
  N_of_ascii <$> String.list_ascii_of_string s.

(** [str.isspace] on one code point: the characters CPython's
    [_PyUnicode_IsWhitespace] accepts. *)
Definition isspace (c : N) : bool :=
  ((9 <=? c) && (c <=? 13) || (28 <=? c) && (c <=? 32)
   || (c =? 133) || (c =? 160) || (c =? 5760)
   || (8192 <=? c) && (c <=? 8202)
   || (c =? 8232) || (c =? 8233) || (c =? 8239) || (c =? 8287)
   || (c =? 12288))%N.

Fixpoint lstrip (s : pystr) : pystr :=
  match s with
  | [] => []
  | c :: s' => if isspace c then lstrip s' else s
  end.

Definition rstrip (s : pystr) : pystr := reverse (lstrip (reverse s)).

(** [s.strip()] *)
Definition strip (s : pystr) : pystr := rstrip (lstrip s).

(** Truth value of a string and of an [int]. *)
Definition truthy_str (s : pystr) : bool :=
  match s with [] => false | _ :: _ => true end.

Definition truthy_int (z : Z) : bool := negb (z =? 0).

(** ** Quartz events *)

(** The event kinds the callback distinguishes; [type_] is compared
    against these five constants in turn and everything else falls
    through to the final [return event]. *)
Inductive CGEventType :=
  | kCGEventTapDisabledByTimeout
  | kCGEventTapDisabledByUserInput
  | kCGEventFlagsChanged
  | kCGEventKeyDown
  | kCGEventKeyUp
  | kCGEventOther (n : Z).

(** What the callback reads from an event: its flag field and its
    keycode field. *)
Record CGEvent := mkEvent {
  CGEventGetFlags : Z;
  kCGKeyboardEventKeycode : Z
}.

(** ** Module state *)

Definition HOTKEY_KEYCODES : list Z := [18; 19; 20; 21; 23; 22; 26; 28; 25].

Record State := mkState {
  mapping : gmap Z pystr;
  _launch_q : list pystr;
  _pressed_fired : gset Z;
  _alt_down : bool;
  _tap_port : option Z;
  (** ports passed to [CGEventTapEnable(port, True)], latest first *)
  tap_enabled : list Z
}.

Definition initial_state : State :=
  mkState ∅ [] ∅ false None [].

Definition set_mapping (m : gmap Z pystr) (st : State) : State :=
  mkState m (_launch_q st) (_pressed_fired st) (_alt_down st)
          (_tap_port st) (tap_enabled st).

Definition set_alt_down (b : bool) (st : State) : State :=
  mkState (mapping st) (_launch_q st) (_pressed_fired st) b
          (_tap_port st) (tap_enabled st).

Definition set_pressed_fired (s : gset Z) (st : State) : State :=
  mkState (mapping st) (_launch_q st) s (_alt_down st)
          (_tap_port st) (tap_enabled st).

(** [_launch_q.put(x)]: the queue is unbounded, so [put] always adds. *)
Definition launch_q_put (x : pystr) (st : State) : State :=
  mkState (mapping st) (_launch_q st ++ [x]) (_pressed_fired st)
          (_alt_down st) (_tap_port st) (tap_enabled st).

Definition CGEventTapEnable (port : Z) (st : State) : State :=
  mkState (mapping st) (_launch_q st) (_pressed_fired st) (_alt_down st)
          (_tap_port st) (port :: tap_enabled st).

(** ** load_mappings *)

(** Exceptions: a computation returns a value or raises. *)
Inductive result (A : Type) :=
  | Ok (a : A)
  | Raise (e : pystr).
Arguments Ok {A} a.
Arguments Raise {A} e.

Definition bind {A B} (x : result A) (k : A → result B) : result B :=
  match x with
  | Ok a => k a
  | Raise e => Raise e
  end.

Notation "x ←! c ; k" := (bind c (λ x, k))
  (at level 20, c at level 100, k at level 200, right associativity,
   only parsing).

(** An open text file as its iterator sees it: each step yields the next
    raw line, reaches the end of the file, or raises (an I/O or decoding
    error). *)
Inductive file_iter :=
  | EOF
  | Line (line : pystr) (rest : file_iter)
  | ReadError (e : pystr).

(** [open(HOPBOP_CONFIG, 'r')]: a file, or the exception raised (missing
    file, permission denied). *)
Inductive config_source :=
  | Opened (f : file_iter)
  | OpenError (e : pystr).

Definition open (src : config_source) : result file_iter :=
  match src with
  | Opened f => Ok f
  | OpenError e => Raise e
  end.

(** What the function prints. *)
Inductive log_line :=
  | SlotLine (i : nat) (v : pystr)
  | FailedToLoad (e : pystr).

(** [[line.strip() for line in f if line.strip()]] *)
Fixpoint stripped_lines (f : file_iter) : result (list pystr) :=
  match f with
  | EOF => Ok []
  | Line line rest =>
      let head := if truthy_str (strip line) then [strip line] else [] in
      tail ←! stripped_lines rest;
      Ok (head ++ tail)
  | ReadError e => Raise e
  end.

(** [{code: bundle_id for code, bundle_id in zip(codes, lines)}]: the
    pairs are stored one after the other, a later pair replacing an
    earlier one with the same key. *)
Definition dict_of_pairs (kvs : list (Z * pystr)) : gmap Z pystr :=
  foldl (λ m kv, <[kv.1 := kv.2]> m) ∅ kvs.

(** [enumerate(mapping.values())], printed as [[i + 1] -> v]. The dict
    keeps insertion order and the keycodes are distinct, so the values
    are those of the zipped pairs in order. *)
Definition slot_report (kvs : list (Z * pystr)) : list log_line :=
  imap (λ i v, SlotLine (i + 1)%nat v) kvs.*2.

(** The body of the [try]. *)
Definition load_mappings_try (src : config_source) (st : State)
  : result (State * list log_line) :=
  f ←! open src;
  lines ←! stripped_lines f;
  let new_map := dict_of_pairs (zip HOTKEY_KEYCODES lines) in
  let st := set_mapping new_map st in
  Ok (st, slot_report (zip HOTKEY_KEYCODES lines)).

Definition load_mappings (src : config_source) (st : State)
  : State * list log_line :=
  match load_mappings_try src st with
  | Ok r => r
  | Raise e => (st, [FailedToLoad e])
  end.

(** A file that is read to its end without error. *)
Fixpoint file_of_lines (ls : list pystr) : file_iter :=
  match ls with
  | [] => EOF
  | l :: ls' => Line l (file_of_lines ls')
  end.

(** A source that cannot be opened, or whose reading raises. *)
Fixpoint read_fails (f : file_iter) : bool :=
  match f with
  | EOF => false
  | Line _ rest => read_fails rest
  | ReadError _ => true
  end.

Definition unreadable (src : config_source) : bool :=
  match src with
  | Opened f => read_fails f
  | OpenError _ => true
  end.

(** The config format in the words of the specification: a line is blank
    when it holds white space only, and [t] is [line] trimmed when [line]
    is [t] between two runs of white space and [t] neither starts nor ends
    with white space. *)
Definition blank (line : pystr) : bool := forallb isspace line.

Definition trimmed (line t : pystr) : Prop :=
  ∃ pre post,
    line = pre ++ t ++ post ∧
    Forall (λ c, isspace c = true) pre ∧
    Forall (λ c, isspace c = true) post ∧
    (∀ c, head t = Some c → isspace c = false) ∧
    (∀ c, last t = Some c → isspace c = false).

(** The targets of a file, by the specification: every line that is not
    blank, trimmed, in file order. *)
Definition spec_targets (raw : list pystr) : list pystr :=
  List.map strip (List.filter (λ line, negb (blank line)) raw).

(** The tables [mapping] can hold: it starts as [{}] and is assigned by
    [load_mappings] only. *)
Inductive installed : gmap Z pystr → Prop :=
  | installed_initial : installed ∅
  | installed_load (src : config_source) (st : State) :
      installed (mapping st) →
      installed (mapping (load_mappings src st).1).

(** ** tap_callback *)

Section Dispatcher.

(** The Option-key bit of the flag field, a constant of Quartz. *)
Variable kCGEventFlagMaskAlternate : Z.

(** [flags & kCGEventFlagMaskAlternate], as a truth value. *)
Definition modifier_bit (event : CGEvent) : bool :=
  truthy_int (Z.land (CGEventGetFlags event) kCGEventFlagMaskAlternate).

Definition tap_callback (st : State) (type_ : CGEventType) (event : CGEvent)
  : option CGEvent * State :=
  match type_ with
  | kCGEventTapDisabledByTimeout | kCGEventTapDisabledByUserInput =>
      (Some event,
       match _tap_port st with
       | Some port => CGEventTapEnable port st
       | None => st
       end)
  | kCGEventFlagsChanged =>
      let flags := CGEventGetFlags event in
      let was_down := _alt_down st in
      let alt_down := truthy_int (Z.land flags kCGEventFlagMaskAlternate) in
      let st := set_alt_down alt_down st in
      (Some event,
       if was_down && negb alt_down then set_pressed_fired ∅ st else st)
  | kCGEventKeyDown =>
      let keycode := kCGKeyboardEventKeycode event in
      let flags := CGEventGetFlags event in
      if truthy_int (Z.land flags kCGEventFlagMaskAlternate) then
        let bundle_id := mapping st !! keycode in
        match bundle_id with
        | Some target =>
            if truthy_str target
               && negb (bool_decide (keycode ∈ _pressed_fired st))
            then
              (None,
               launch_q_put target
                 (set_pressed_fired ({[keycode]} ∪ _pressed_fired st) st))
            else (Some event, st)
        | None => (Some event, st)
        end
      else (Some event, st)
  | kCGEventKeyUp =>
      let keycode := kCGKeyboardEventKeycode event in
      (Some event,
       if bool_decide (keycode ∈ _pressed_fired st)
       then set_pressed_fired (_pressed_fired st ∖ {[keycode]}) st
       else st)
  | kCGEventOther _ => (Some event, st)
  end.

(** The callback applied to a sequence of events, in delivery order:
    the results, and the final state. *)
Fixpoint run (st : State) (evs : list (CGEventType * CGEvent))
  : list (option CGEvent) * State :=
  match evs with
  | [] => ([], st)
  | (type_, event) :: evs' =>
      let '(r, st1) := tap_callback st type_ event in
      let '(rs, st2) := run st1 evs' in
      (r :: rs, st2)
  end.

End Dispatcher.

(** ** tap_callback, with the exceptions of its Quartz calls

    [tap_callback] has no [try]: what a call it makes raises leaves the
    callback. The operations on its own data cannot raise ([dict.get]
    returns [None] for a missing key, [in], [set.add], [set.discard] and
    [put] on an unbounded queue always return), so the calls that may are
    the three into Quartz. Each is given here an outcome that the
    environment decides: [None] when the call returns, [Some e] when it
    raises [e]. In every branch these calls come before the first write
    to a global, so when one raises the module state is as it was. *)

Section DispatcherExceptions.

Variable kCGEventFlagMaskAlternate : Z.
Variable CGEventGetFlags_raises : CGEvent → option pystr.
Variable CGEventGetIntegerValueField_raises : CGEvent → option pystr.
Variable CGEventTapEnable_raises : Z → option pystr.

(** A call that returns [value] unless the environment makes it raise. *)
Definition quartz {A} (raises : option pystr) (value : A) : result A :=
  match raises with
  | Some e => Raise e
  | None => Ok value
  end.

Definition tap_callback_exn (st : State) (type_ : CGEventType)
    (event : CGEvent) : result (option CGEvent * State) :=
  match type_ with
  | kCGEventTapDisabledByTimeout | kCGEventTapDisabledByUserInput =>
      match _tap_port st with
      | Some port =>
          done ←! quartz (CGEventTapEnable_raises port) tt;
          Ok (Some event, CGEventTapEnable port st)
      | None => Ok (Some event, st)
      end
  | kCGEventFlagsChanged =>
      flags ←! quartz (CGEventGetFlags_raises event) (CGEventGetFlags event);
      let was_down := _alt_down st in
      let alt_down := truthy_int (Z.land flags kCGEventFlagMaskAlternate) in
      let st := set_alt_down alt_down st in
      Ok (Some event,
          if was_down && negb alt_down then set_pressed_fired ∅ st else st)
  | kCGEventKeyDown =>
      keycode ←! quartz (CGEventGetIntegerValueField_raises event)
                   (kCGKeyboardEventKeycode event);
      flags ←! quartz (CGEventGetFlags_raises event) (CGEventGetFlags event);
      if truthy_int (Z.land flags kCGEventFlagMaskAlternate) then
        let bundle_id := mapping st !! keycode in
        match bundle_id with
        | Some target =>
            if truthy_str target
               && negb (bool_decide (keycode ∈ _pressed_fired st))
            then
              Ok (None,
                  launch_q_put target
                    (set_pressed_fired ({[keycode]} ∪ _pressed_fired st) st))
            else Ok (Some event, st)
        | None => Ok (Some event, st)
        end
      else Ok (Some event, st)
  | kCGEventKeyUp =>
      keycode ←! quartz (CGEventGetIntegerValueField_raises event)
                   (kCGKeyboardEventKeycode event);
      Ok (Some event,
          if bool_decide (keycode ∈ _pressed_fired st)
          then set_pressed_fired (_pressed_fired st ∖ {[keycode]}) st
          else st)
  | kCGEventOther _ => Ok (Some event, st)
  end.

End DispatcherExceptions.

(** ** _launcher *)

(** What the launcher thread does, in order: a call of
    [subprocess.Popen], the line printed when that call raised, and
    [_launch_q.task_done()]. *)
Inductive launcher_effect :=
  | Spawn (argv : list pystr)
  | FailedToLaunch (e : pystr)
  | TaskDone.

(** Where the loop stands once the items put so far are used up: it has
    taken [None] and returned, leaving [rest] in the queue, or it is
    blocked in [_launch_q.get()]. *)
Inductive launcher_end :=
  | Returned (rest : list (option pystr))
  | Waiting.

Section Launcher.

(** [subprocess.Popen(argv)] returns or raises; the outcome may depend on
    the number of earlier calls as well as on [argv]. *)
Variable Popen : nat → list pystr → result unit.

(** The loop of [_launcher] run on the items of the queue, oldest first;
    [n] counts the calls of [Popen] made so far. *)
Fixpoint _launcher (n : nat) (q : list (option pystr))
  : list launcher_effect * launcher_end :=
  match q with
  | [] => ([], Waiting)
  | None :: rest => ([], Returned rest)
  | Some bundle_id :: rest =>
      let argv := [py "open"; py "-b"; bundle_id] in
      let try :=
        match Popen n argv with
        | Ok _ => [Spawn argv]
        | Raise e => [Spawn argv; FailedToLaunch e]
        end in
      let '(effects, fin) := _launcher (S n) rest in
      (try ++ TaskDone :: effects, fin)
  end.

End Launcher.

(** The argument lists of the [Popen] calls among some effects, and the
    number of [task_done] calls. *)
Definition spawns (effects : list launcher_effect) : list (list pystr) :=
  omap (λ e, match e with Spawn argv => Some argv | _ => None end) effects.

Definition task_dones (effects : list launcher_effect) : nat :=
  length (List.filter (λ e, match e with TaskDone => true | _ => false end)
            effects).

(** The items of a queue in front of the first [None]. *)
Fixpoint before_sentinel (q : list (option pystr)) : list pystr :=
  match q with
  | Some bundle_id :: rest => bundle_id :: before_sentinel rest
  | _ => []
  end.

(** ** HopBopConfigHandler.on_modified *)

(** [s.rfind(c)]: the highest index of [c] in [s], or -1. *)
Fixpoint rfind (c : N) (s : pystr) : Z :=
  match s with
  | [] => -1
  | x :: s' =>
      let r := rfind c s' in
      if 0 <=? r then r + 1 else if (x =? c)%N then 0 else -1
  end.

(** [os.path.basename] of [posixpath]: what follows the last slash. *)
Definition basename (p : pystr) : pystr :=
  let i := rfind 47%N p + 1 in
  drop (Z.to_nat i) p.

(** What the handler and, through it, the loader print. *)
Inductive watcher_line :=
  | ConfigChanged
  | FromLoader (l : log_line).

Section Watcher.

(** The expanded config path and [os.path.abspath], which depends on the
    working directory. *)
Variable HOPBOP_CONFIG : pystr.
Variable abspath : pystr → pystr.

(** [src] is what the config file holds once the handler has slept. *)
Definition on_modified (src_path : pystr) (src : config_source) (st : State)
  : State * list watcher_line :=
  if bool_decide (abspath src_path = abspath HOPBOP_CONFIG)
     || bool_decide (basename src_path = basename HOPBOP_CONFIG)
  then
    let '(st, out) := load_mappings src st in
    (st, ConfigChanged :: (FromLoader <$> out))
  else (st, []).

End Watcher.

(** ** main *)

Definition set_tap_port (port : option Z) (st : State) : State :=
  mkState (mapping st) (_launch_q st) (_pressed_fired st) (_alt_down st)
          port (tap_enabled st).

Inductive main_line :=
  | Starting
  | LoaderLine (l : log_line)
  | CouldNotCreateTap
  | Listening.

(** [main] ends in [sys.exit(1)] or enters [CFRunLoopRun()] with the
    module state it has set up. *)
Inductive main_outcome :=
  | Exit (status : Z) (out : list main_line)
  | RunLoop (st : State) (out : list main_line).

(** [tap] is the result of [CGEventTapCreate]: a port, or [None] when the
    tap could not be created. Between the load and the creation of the tap
    [main] starts the watcher and the launcher threads; what they do once
    running is [Reload] below and [_launcher] above. *)
Definition main (src : config_source) (tap : option Z) : main_outcome :=
  let '(st, out) := load_mappings src initial_state in
  let st := set_tap_port tap st in
  match tap with
  | None => Exit 1 (Starting :: (LoaderLine <$> out) ++ [CouldNotCreateTap])
  | Some _ => RunLoop st (Starting :: (LoaderLine <$> out) ++ [Listening])
  end.

(** ** The running program

    Once the run loop is entered, the module state changes by the events
    handed to [tap_callback] and by the reloads the watcher thread makes,
    in some interleaving. *)
Inductive action :=
  | Deliver (type_ : CGEventType) (event : CGEvent)
  | Reload (src : config_source).

Section Program.

Variable kCGEventFlagMaskAlternate : Z.

Definition step (st : State) (a : action) : State :=
  match a with
  | Deliver type_ event =>
      (tap_callback kCGEventFlagMaskAlternate st type_ event).2
  | Reload src => (load_mappings src st).1
  end.

Definition exec (st : State) (acts : list action) : State :=
  foldl step st acts.

End Program.

(** The number of events the callback swallowed, among its results. *)
Definition suppressed (results : list (option CGEvent)) : nat :=
  length (List.filter (λ r, match r with None => true | Some _ => false end)
            results).

(** The tap-disabled notifications among some events. *)
Definition is_tap_disabled (type_ : CGEventType) : bool :=
  match type_ with
  | kCGEventTapDisabledByTimeout | kCGEventTapDisabledByUserInput => true
  | _ => false
  end.

(** ** A sample session

    The config file of the specification's scenario, with a blank line and
    some padding added, and the events of a user pressing Option+1. *)

(** The value of [kCGEventFlagMaskAlternate] in the CoreGraphics headers,
    bit 19. *)
Definition alt_mask : Z := 524288.

Definition sample_config : config_source :=
  Opened (file_of_lines
    [py "com.app.One" ++ [10%N];
     py "   " ++ [10%N];
     py "  com.app.Two " ++ [10%N]]).

Definition loaded : State := (load_mappings sample_config initial_state).1.

Definition option_1_down : CGEvent := mkEvent 524288 18.
Definition plain_1_up : CGEvent := mkEvent 0 18.
Definition option_3_down : CGEvent := mkEvent 524288 20.
Definition option_pressed : CGEvent := mkEvent 524288 58.
Definition option_released : CGEvent := mkEvent 0 58.

(** Option+1 fired although no modifier-changed event has been seen (the
    program was started with Option held): [_alt_down] is still [False]
    and 18 is in [_pressed_fired]. *)
Definition fired_untracked : State :=
  (run alt_mask loaded [(kCGEventKeyDown, option_1_down)]).2.

(** Option+1 fired after the Option press was seen. *)
Definition fired_tracked : State :=
  (run alt_mask loaded
     [(kCGEventFlagsChanged, option_pressed);
      (kCGEventKeyDown, option_1_down)]).2.

(** A file whose second read raises. *)
Definition broken_config : config_source :=
  Opened (Line (py "com.app.Three") (ReadError (py "I/O error"))).

(** * Properties *)

(** ** The mapping table only holds non-empty targets *)

Lemma stripped_lines_truthy (f : file_iter) (lines : list pystr) :
  stripped_lines f = Ok lines → Forall (λ l, truthy_str l = true) lines.
Proof.
  revert lines. induction f as [|line rest IH|e]; intros lines; cbn.
  - intros [= <-]. constructor.
  - destruct (stripped_lines rest) as [tail|e]; cbn; [|discriminate].
    intros [= <-]. specialize (IH tail eq_refl).
    destruct (truthy_str (strip line)) eqn:Hl; cbn; auto.
  - discriminate.
Qed.

Lemma foldl_insert_lookup_Some (kvs : list (Z * pystr)) (m : gmap Z pystr)
    (k : Z) (v : pystr) :
  foldl (λ m kv, <[kv.1 := kv.2]> m) m kvs !! k = Some v →
  (k, v) ∈ kvs ∨ m !! k = Some v.
Proof.
  revert m. induction kvs as [|[k' v'] kvs IH]; intros m; cbn.
  - auto.
  - intros H. destruct (IH _ H) as [Hin|Hm].
    + left. by apply elem_of_cons; right.
    + destruct (decide (k' = k)) as [->|Hne].
      * rewrite lookup_insert_eq in Hm. injection Hm as ->.
        left. apply elem_of_cons; by left.
      * rewrite lookup_insert_ne in Hm by done. by right.
Qed.

Lemma dict_of_pairs_elem (kvs : list (Z * pystr)) (k : Z) (v : pystr) :
  dict_of_pairs kvs !! k = Some v → (k, v) ∈ kvs.
Proof.
  intros H. destruct (foldl_insert_lookup_Some _ _ _ _ H) as [?|Hm]; [done|].
  by rewrite lookup_empty in Hm.
Qed.

Lemma load_mappings_mapping (src : config_source) (st : State) :
  mapping (load_mappings src st).1 = mapping st ∨
  ∃ f lines, src = Opened f ∧ stripped_lines f = Ok lines ∧
    mapping (load_mappings src st).1
    = dict_of_pairs (zip HOTKEY_KEYCODES lines).
Proof.
  unfold load_mappings, load_mappings_try.
  destruct src as [f|e]; cbn; [|by left].
  destruct (stripped_lines f) as [lines|e] eqn:Hf; cbn; [|by left].
  right. by exists f, lines.
Qed.

Lemma installed_truthy (m : gmap Z pystr) (k : Z) (t : pystr) :
  installed m → m !! k = Some t → truthy_str t = true.
Proof.
  intros Hm. revert k t. induction Hm as [|src st _ IH]; intros k t.
  - by rewrite lookup_empty.
  - destruct (load_mappings_mapping src st) as [->|(f & lines & _ & Hf & ->)].
    + apply IH.
    + intros Hk%dict_of_pairs_elem%elem_of_zip_r.
      pose proof (stripped_lines_truthy _ _ Hf) as Hall.
      rewrite Forall_forall in Hall. by apply Hall.
Qed.

(** ** tap_callback, one event at a time *)

Section DispatcherProperties.

Context (kCGEventFlagMaskAlternate : Z).

Local Abbreviation tap_callback := (tap_callback kCGEventFlagMaskAlternate).
Local Abbreviation modifier_bit := (modifier_bit kCGEventFlagMaskAlternate).
Local Abbreviation run := (run kCGEventFlagMaskAlternate).

Implicit Types (st : State) (event up down : CGEvent) (k : Z) (T : pystr).

Lemma key_down_fires st event T :
  modifier_bit event = true →
  mapping st !! kCGKeyboardEventKeycode event = Some T →
  truthy_str T = true →
  kCGKeyboardEventKeycode event ∉ _pressed_fired st →
  tap_callback st kCGEventKeyDown event
  = (None,
     launch_q_put T
       (set_pressed_fired
          ({[kCGKeyboardEventKeycode event]} ∪ _pressed_fired st) st)).
Proof.
  unfold modifier_bit. intros Hbit Hmap HT Hfresh. cbn.
  rewrite Hbit, Hmap, HT. by rewrite bool_decide_eq_false_2.
Qed.

Lemma key_down_debounced st event :
  kCGKeyboardEventKeycode event ∈ _pressed_fired st →
  tap_callback st kCGEventKeyDown event = (Some event, st).
Proof.
  intros Hin. cbn.
  destruct (truthy_int _); [|done].
  destruct (mapping st !! _); [|done].
  by rewrite (bool_decide_eq_true_2 _ Hin), andb_false_r.
Qed.

Lemma key_down_unmapped st event :
  mapping st !! kCGKeyboardEventKeycode event = None →
  tap_callback st kCGEventKeyDown event = (Some event, st).
Proof. intros Hmap. cbn. rewrite Hmap. by case_match. Qed.

Lemma key_down_no_modifier st event :
  modifier_bit event = false →
  tap_callback st kCGEventKeyDown event = (Some event, st).
Proof. unfold modifier_bit. intros Hbit. cbn. by rewrite Hbit. Qed.

Lemma key_up_state st event :
  tap_callback st kCGEventKeyUp event
  = (Some event,
     set_pressed_fired
       (_pressed_fired st ∖ {[kCGKeyboardEventKeycode event]}) st).
Proof.
  cbn. f_equal.
  destruct (bool_decide_reflect
              (kCGKeyboardEventKeycode event ∈ _pressed_fired st)); [done|].
  destruct st as [m q s a p l]; cbn in *. unfold set_pressed_fired; cbn.
  f_equal. symmetry. by apply difference_disjoint_L, disjoint_singleton_r.
Qed.

Lemma flags_changed_state st event :
  tap_callback st kCGEventFlagsChanged event
  = (Some event,
     if _alt_down st && negb (modifier_bit event)
     then set_pressed_fired ∅ (set_alt_down (modifier_bit event) st)
     else set_alt_down (modifier_bit event) st).
Proof. reflexivity. Qed.

Lemma run_app st (evs1 evs2 : list (CGEventType * CGEvent)) :
  run st (evs1 ++ evs2)
  = ((run st evs1).1 ++ (run (run st evs1).2 evs2).1,
     (run (run st evs1).2 evs2).2).
Proof.
  revert st. induction evs1 as [|[ty ev] evs1 IH]; intros st; cbn.
  - by destruct (run st evs2).
  - destruct (tap_callback st ty ev) as [r st1]. rewrite IH.
    by destruct (run st1 evs1).
Qed.

(** Key-downs on a key that has already fired leave the state as it is
    and are all passed on. *)
Lemma run_debounced st k (repeats : list CGEvent) :
  k ∈ _pressed_fired st →
  Forall (λ e, kCGKeyboardEventKeycode e = k) repeats →
  run st (pair kCGEventKeyDown <$> repeats) = (Some <$> repeats, st).
Proof.
  intros Hin. induction 1 as [|e repeats He _ IH]; [done|].
  cbn [fmap list_fmap run].
  rewrite key_down_debounced by (by rewrite He). by rewrite IH.
Qed.

(** The callback only reads [mapping]: the table in force is the one the
    last load installed, however many events have been handled since. *)
Lemma tap_callback_mapping st (type_ : CGEventType) event :
  mapping (tap_callback st type_ event).2 = mapping st.
Proof.
  destruct type_; cbn; try done.
  - by destruct (_tap_port st).
  - by destruct (_tap_port st).
  - by destruct (_ && _).
  - destruct (truthy_int _); [|done].
    destruct (mapping st !! _) as [T|]; [|done].
    by destruct (truthy_str T && _).
  - by destruct (bool_decide _).
Qed.

Lemma run_mapping st (evs : list (CGEventType * CGEvent)) :
  mapping (run st evs).2 = mapping st.
Proof.
  revert st. induction evs as [|[ty ev] evs IH]; intros st; cbn; [done|].
  pose proof (tap_callback_mapping st ty ev) as Hm.
  destruct (tap_callback st ty ev) as [r st1]. specialize (IH st1).
  destruct (run st1 evs) as [rs st2]. cbn in *. congruence.
Qed.

(** ** The claims about the dispatcher *)

(** C1. For a key [k] that the installed mapping sends to [T], a
    key-down on [k] with the modifier bit set, arriving while [k] is not
    in [_pressed_fired], is swallowed (the callback returns [None]), puts
    exactly [T] on the launch queue and adds [k] to [_pressed_fired]; the
    modifier-held key-downs on [k] that follow before any key-up, however
    many, are each returned unchanged and leave the queue and the rest of
    the state as they are. *)
Theorem first_key_down_fires_once st k T event (repeats : list CGEvent) :
  installed (mapping st) →
  mapping st !! k = Some T →
  kCGKeyboardEventKeycode event = k →
  modifier_bit event = true →
  k ∉ _pressed_fired st →
  Forall (λ e, kCGKeyboardEventKeycode e = k ∧ modifier_bit e = true)
         repeats →
  (tap_callback st kCGEventKeyDown event).1 = None ∧
  _launch_q (tap_callback st kCGEventKeyDown event).2
    = _launch_q st ++ [T] ∧
  _pressed_fired (tap_callback st kCGEventKeyDown event).2
    = {[k]} ∪ _pressed_fired st ∧
  run (tap_callback st kCGEventKeyDown event).2
      (pair kCGEventKeyDown <$> repeats)
    = (Some <$> repeats, (tap_callback st kCGEventKeyDown event).2).
Proof.
  intros Hinst Hmap <- Hbit Hfresh Hrep.
  rewrite (key_down_fires st event T) by eauto using installed_truthy.
  cbn [fst snd]. repeat split.
  apply run_debounced with (k := kCGKeyboardEventKeycode event).
  - cbn. apply elem_of_union_l. by apply elem_of_singleton.
  - eapply Forall_impl; [exact Hrep|]. by intros e [? _].
Qed.

(** C2, as the code has it. Every modifier-changed event is passed on
    and sets [_alt_down] to the modifier bit of its flags. On the
    up-to-down transition of the tracked state [_pressed_fired] is left
    exactly as it was, and so it is when the state stays down or stays
    up; the set is emptied on the down-to-up transition only. Nothing is
    queued and the table is not touched. *)
Theorem modifier_press_keeps_debounce st event :
  (tap_callback st kCGEventFlagsChanged event).1 = Some event ∧
  _alt_down (tap_callback st kCGEventFlagsChanged event).2
    = modifier_bit event ∧
  _launch_q (tap_callback st kCGEventFlagsChanged event).2 = _launch_q st ∧
  mapping (tap_callback st kCGEventFlagsChanged event).2 = mapping st ∧
  (_alt_down st = false → modifier_bit event = true →
   _pressed_fired (tap_callback st kCGEventFlagsChanged event).2
     = _pressed_fired st) ∧
  (_alt_down st = true → modifier_bit event = true →
   _pressed_fired (tap_callback st kCGEventFlagsChanged event).2
     = _pressed_fired st) ∧
  (_alt_down st = false → modifier_bit event = false →
   _pressed_fired (tap_callback st kCGEventFlagsChanged event).2
     = _pressed_fired st) ∧
  (_alt_down st = true → modifier_bit event = false →
   _pressed_fired (tap_callback st kCGEventFlagsChanged event).2 = ∅).
Proof.
  rewrite flags_changed_state. cbn [fst snd].
  destruct (_alt_down st), (modifier_bit event); cbn;
    split_and!; intros; done.
Qed.

(** Whatever it is given, the callback returns either the event itself
    or [None], and [None] only for a key-down that found a target; a
    lookup that finds nothing leaves the state as it was. *)
Lemma callback_returns_event_or_none st (type_ : CGEventType) event :
  ((tap_callback st type_ event).1 = Some event ∨
   (tap_callback st type_ event).1 = None ∧ type_ = kCGEventKeyDown ∧
   is_Some (mapping st !! kCGKeyboardEventKeycode event)) ∧
  (mapping st !! kCGKeyboardEventKeycode event = None →
   (tap_callback st type_ event).1 = Some event ∧
   _launch_q (tap_callback st type_ event).2 = _launch_q st ∧
   (type_ = kCGEventKeyDown → (tap_callback st type_ event).2 = st)).
Proof.
  split.
  - destruct type_; cbn; auto.
    destruct (truthy_int _); cbn; auto.
    destruct (mapping st !! _) as [T|]; cbn; auto.
    destruct (truthy_str T && _); cbn; eauto.
  - intros Hnone. destruct type_; try discriminate.
    + cbn. by destruct (_tap_port st).
    + cbn. by destruct (_tap_port st).
    + rewrite flags_changed_state. cbn. by destruct (_ && _).
    + by rewrite key_down_unmapped.
    + by rewrite key_up_state.
    + done.
Qed.

(** C6. A key-down with the modifier bit set on a key that the mapping
    does not contain is returned unchanged and changes nothing: nothing
    is queued and [_pressed_fired] stays as it was. *)
Theorem unmapped_key_down_forwarded st k event :
  mapping st !! k = None →
  kCGKeyboardEventKeycode event = k →
  modifier_bit event = true →
  tap_callback st kCGEventKeyDown event = (Some event, st).
Proof. intros Hmap <- _. by apply key_down_unmapped. Qed.

(** C7. Every modifier-changed event that takes the tracked modifier
    state from down to up is passed on and empties [_pressed_fired],
    whatever the set and the table hold; nothing else changes but
    [_alt_down]. A modifier press after it, followed by a modifier-held
    key-down on a mapped key [k], queues the target of [k] again and
    swallows the key-down, whether or not [k] was in [_pressed_fired]
    before the release: no key-up of [k] is needed. *)
Theorem modifier_release_clears_debounce st up :
  _alt_down st = true →
  modifier_bit up = false →
  tap_callback st kCGEventFlagsChanged up
    = (Some up, set_pressed_fired ∅ (set_alt_down false st)) ∧
  _pressed_fired (tap_callback st kCGEventFlagsChanged up).2 = ∅ ∧
  ∀ k T down event,
    installed (mapping st) →
    mapping st !! k = Some T →
    modifier_bit down = true →
    kCGKeyboardEventKeycode event = k →
    modifier_bit event = true →
    (run st [(kCGEventFlagsChanged, up); (kCGEventFlagsChanged, down);
             (kCGEventKeyDown, event)]).1
      = [Some up; Some down; None] ∧
    _launch_q
      (run st [(kCGEventFlagsChanged, up); (kCGEventFlagsChanged, down);
               (kCGEventKeyDown, event)]).2
      = _launch_q st ++ [T].
Proof.
  intros Halt Hup.
  assert (Hrel : tap_callback st kCGEventFlagsChanged up
                 = (Some up, set_pressed_fired ∅ (set_alt_down false st))).
  { by rewrite flags_changed_state, Halt, Hup. }
  split; [done|]. split; [by rewrite Hrel|].
  intros k T down event Hinst Hmap Hdown <- Hbit.
  cbn [run]. rewrite Hrel. rewrite flags_changed_state.
  cbn [_alt_down set_pressed_fired set_alt_down]. rewrite Hdown.
  cbn [andb negb]. rewrite (key_down_fires _ event T); cbn;
    eauto using installed_truthy.
  apply not_elem_of_empty.
Qed.

(** C8. Every key-up, on a mapped key or not, is returned unchanged,
    queues nothing and takes its key [k] out of [_pressed_fired],
    changing nothing else (so the state is as before when [k] was not in
    the set). When [k] is mapped to [T], a modifier-held key-down on [k]
    after the key-up is swallowed and queues [T]; following a first
    firing of [k], that is a second [T] on the queue. *)
Theorem key_up_releases_debounce st up :
  tap_callback st kCGEventKeyUp up
    = (Some up,
       set_pressed_fired
         (_pressed_fired st ∖ {[kCGKeyboardEventKeycode up]}) st) ∧
  _launch_q (tap_callback st kCGEventKeyUp up).2 = _launch_q st ∧
  _pressed_fired (tap_callback st kCGEventKeyUp up).2
    = _pressed_fired st ∖ {[kCGKeyboardEventKeycode up]} ∧
  (kCGKeyboardEventKeycode up ∉ _pressed_fired st →
   (tap_callback st kCGEventKeyUp up).2 = st) ∧
  ∀ k T event,
    installed (mapping st) →
    mapping st !! k = Some T →
    kCGKeyboardEventKeycode up = k →
    kCGKeyboardEventKeycode event = k →
    modifier_bit event = true →
    (run st [(kCGEventKeyUp, up); (kCGEventKeyDown, event)]).1
      = [Some up; None] ∧
    _launch_q (run st [(kCGEventKeyUp, up); (kCGEventKeyDown, event)]).2
      = _launch_q st ++ [T] ∧
    (k ∉ _pressed_fired st →
     run st [(kCGEventKeyDown, event); (kCGEventKeyUp, up);
             (kCGEventKeyDown, event)]
     = ([None; Some up; None],
        launch_q_put T
          (launch_q_put T
             (set_pressed_fired ({[k]} ∪ _pressed_fired st) st)))).
Proof.
  split; [apply key_up_state|]. split; [by rewrite key_up_state|].
  split; [by rewrite key_up_state|]. split.
  { intros Hfresh. cbn. by rewrite bool_decide_eq_false_2. }
  intros k T event Hinst Hmap Hup Hk Hbit.
  assert (HT : truthy_str T = true) by eauto using installed_truthy.
  assert (Hrefire : ∀ st', mapping st' = mapping st →
    tap_callback
      (set_pressed_fired (_pressed_fired st' ∖ {[k]}) st')
      kCGEventKeyDown event
    = (None,
       launch_q_put T
         (set_pressed_fired ({[k]} ∪ _pressed_fired st' ∖ {[k]}) st'))).
  { intros st' Hst'.
    rewrite (key_down_fires _ event T); cbn; rewrite ?Hk, ?Hst'; auto.
    rewrite elem_of_difference, elem_of_singleton. tauto. }
  split; [|split].
  - cbn [run]. by rewrite key_up_state, Hup, Hrefire.
  - cbn [run]. by rewrite key_up_state, Hup, Hrefire.
  - intros Hfresh. cbn [run].
    rewrite (key_down_fires st event T), key_up_state, Hup, Hk by
      (rewrite ?Hk; auto).
    cbn [_pressed_fired launch_q_put set_pressed_fired mapping _launch_q
         _alt_down _tap_port tap_enabled].
    rewrite (key_down_fires _ event T); cbn; rewrite ?Hk; auto.
    + do 2 f_equal.
      replace (({[k]} ∪ _pressed_fired st) ∖ {[k]}) with (_pressed_fired st).
      * done.
      * apply set_eq. intros x.
        rewrite elem_of_difference, elem_of_union, !elem_of_singleton.
        split; [|tauto]. intros ?. split; [tauto|]. by intros ->.
    + rewrite elem_of_difference, elem_of_singleton. tauto.
Qed.

(** C9. A key-down is decided by the event's own flag field, not by the
    tracked [_alt_down]: run on two states that differ in [_alt_down]
    only, the callback returns the same value, leaves the same
    [_pressed_fired] and the same launch queue, and does not touch
    [_alt_down]. *)
Theorem key_down_independent_of_alt_down st (b1 b2 : bool) event :
  (tap_callback (set_alt_down b1 st) kCGEventKeyDown event).1
    = (tap_callback (set_alt_down b2 st) kCGEventKeyDown event).1 ∧
  _pressed_fired (tap_callback (set_alt_down b1 st) kCGEventKeyDown event).2
    = _pressed_fired
        (tap_callback (set_alt_down b2 st) kCGEventKeyDown event).2 ∧
  _launch_q (tap_callback (set_alt_down b1 st) kCGEventKeyDown event).2
    = _launch_q (tap_callback (set_alt_down b2 st) kCGEventKeyDown event).2 ∧
  _alt_down (tap_callback (set_alt_down b1 st) kCGEventKeyDown event).2 = b1 ∧
  _alt_down (tap_callback (set_alt_down b2 st) kCGEventKeyDown event).2 = b2.
Proof.
  cbn. destruct (truthy_int _); cbn; [|done].
  destruct (mapping st !! _) as [T|]; cbn; [|done].
  by destruct (truthy_str T && _).
Qed.

(** C10. The callback returns [None] exactly when it put one item on the
    launch queue during the call; otherwise it returns the event and the
    queue is as before. Key-up, modifier-changed and tap-disabled events
    (and any kind other than key-down) always take the second course. *)
Theorem suppressed_iff_enqueued st (type_ : CGEventType) event :
  ((tap_callback st type_ event).1 = None ↔
   ∃ T, _launch_q (tap_callback st type_ event).2 = _launch_q st ++ [T]) ∧
  ((tap_callback st type_ event).1 ≠ None →
   (tap_callback st type_ event).1 = Some event ∧
   _launch_q (tap_callback st type_ event).2 = _launch_q st) ∧
  (type_ ≠ kCGEventKeyDown →
   (tap_callback st type_ event).1 = Some event ∧
   _launch_q (tap_callback st type_ event).2 = _launch_q st).
Proof.
  assert (Hne : ∀ (q : list pystr) T, q ≠ q ++ [T]).
  { intros q T Hq. apply (f_equal length) in Hq.
    rewrite length_app in Hq. cbn in Hq. lia. }
  assert (Hcases :
    (tap_callback st type_ event).1 = Some event ∧
    _launch_q (tap_callback st type_ event).2 = _launch_q st ∨
    type_ = kCGEventKeyDown ∧ (tap_callback st type_ event).1 = None ∧
    ∃ T, _launch_q (tap_callback st type_ event).2 = _launch_q st ++ [T]).
  { destruct type_; cbn; auto; try (by destruct (_tap_port st); auto).
    - by destruct (_ && _); auto.
    - destruct (truthy_int _); cbn; auto.
      destruct (mapping st !! _) as [T|]; cbn; auto.
      destruct (truthy_str T && _); cbn; eauto.
    - by destruct (bool_decide _); auto. }
  destruct Hcases as [[-> ->]|(-> & -> & T & ->)]; repeat split;
    try done; eauto.
  intros [T HT]. by apply Hne in HT.
Qed.

End DispatcherProperties.

(** ** The callback and the exceptions of its Quartz calls *)

Section ExceptionProperties.

Context (kCGEventFlagMaskAlternate : Z).
Context (CGEventGetFlags_raises : CGEvent → option pystr).
Context (CGEventGetIntegerValueField_raises : CGEvent → option pystr).
Context (CGEventTapEnable_raises : Z → option pystr).

Local Abbreviation tap_callback := (tap_callback kCGEventFlagMaskAlternate).
Local Abbreviation tap_callback_exn :=
  (tap_callback_exn kCGEventFlagMaskAlternate CGEventGetFlags_raises
     CGEventGetIntegerValueField_raises CGEventTapEnable_raises).


End ExceptionProperties.

(** ** load_mappings *)

Section Strip.

Implicit Types (s line t : pystr) (c : N).

Lemma lstrip_split s :
  ∃ pre, s = pre ++ lstrip s ∧ Forall (λ c, isspace c = true) pre ∧
         (∀ c, head (lstrip s) = Some c → isspace c = false).
Proof.
  induction s as [|c s (pre & Hs & Hpre & Hhd)]; cbn.
  - by exists [].
  - destruct (isspace c) eqn:Hc.
    + exists (c :: pre). repeat split; [cbn; congruence|by constructor|done].
    + exists []. repeat split; [constructor|]. by intros ? [= <-].
Qed.

Lemma lstrip_nil s : lstrip s = [] ↔ blank s = true.
Proof.
  unfold blank. induction s as [|c s IH]; cbn; [done|].
  destruct (isspace c); cbn; [done|]. split; discriminate.
Qed.

Lemma lstrip_spaces_app s t :
  Forall (λ c, isspace c = true) s → lstrip (s ++ t) = lstrip t.
Proof. induction 1 as [|c s Hc _ IH]; cbn; [done|]. by rewrite Hc. Qed.

Lemma lstrip_head_app s t c :
  head s = Some c → isspace c = false → lstrip (s ++ t) = s ++ t.
Proof. destruct s as [|c' s]; [done|]. intros [= ->] Hc. cbn. by rewrite Hc. Qed.

Lemma lstrip_last s c :
  last s = Some c → isspace c = false → last (lstrip s) = Some c.
Proof.
  induction s as [|c' s IH]; [done|]. intros Hlast Hc. cbn.
  destruct (isspace c') eqn:Hc'; [|done].
  destruct s as [|c'' s]; cbn in *; [congruence|]. by apply IH.
Qed.

Lemma blank_reverse s : blank (reverse s) = blank s.
Proof.
  unfold blank. apply eq_true_iff_eq.
  rewrite !forallb_forall. setoid_rewrite <- list_elem_of_In.
  by setoid_rewrite elem_of_reverse.
Qed.

Lemma blank_lstrip s : blank (lstrip s) = blank s.
Proof.
  unfold blank. induction s as [|c s IH]; cbn; [done|].
  destruct (isspace c) eqn:Hc; cbn; [done|]. by rewrite Hc.
Qed.

Lemma strip_nil line : strip line = [] ↔ blank line = true.
Proof.
  unfold strip, rstrip. rewrite <- (reverse_involutive []).
  split.
  - intros H%(inj reverse). apply lstrip_nil in H.
    by rewrite blank_reverse, blank_lstrip in H.
  - intros H. f_equal. cbn. apply lstrip_nil.
    by rewrite blank_reverse, blank_lstrip.
Qed.

Lemma truthy_str_strip line : truthy_str (strip line) = negb (blank line).
Proof.
  destruct (blank line) eqn:Hb; cbn.
  - apply strip_nil in Hb. by rewrite Hb.
  - destruct (strip line) eqn:Hs; [|done].
    apply strip_nil in Hs. congruence.
Qed.

(** [strip] trims. *)
Lemma strip_trimmed line : trimmed line (strip line).
Proof.
  unfold strip, rstrip.
  destruct (lstrip_split line) as (pre & Hline & Hpre & Hhead).
  destruct (lstrip_split (reverse (lstrip line)))
    as (tsop & Hrev & Htsop & Hlast).
  set (t := lstrip (reverse (lstrip line))) in *.
  assert (Hmid : lstrip line = reverse t ++ reverse tsop).
  { by rewrite <- reverse_app, <- Hrev, reverse_involutive. }
  exists pre, (reverse tsop). repeat split.
  - by rewrite <- Hmid.
  - done.
  - by apply Forall_reverse.
  - intros c Hc. destruct (reverse t) as [|c' t'] eqn:Ht; [done|].
    apply Hhead. rewrite Hmid. by cbn in *.
  - intros c. rewrite last_reverse. apply Hlast.
Qed.

(** Trimming has one result only, the one [strip] computes. *)
Lemma trimmed_strip line t : trimmed line t → t = strip line.
Proof.
  intros (pre & post & -> & Hpre & Hpost & Hhead & Hlast).
  unfold strip, rstrip. rewrite lstrip_spaces_app by done.
  destruct t as [|c t'] eqn:Ht.
  - cbn. replace (lstrip post) with (@nil N).
    + done.
    + symmetry. apply lstrip_nil. unfold blank.
      apply forallb_forall. intros c Hc%list_elem_of_In.
      by eapply Forall_forall in Hpost.
  - rewrite <- Ht in *.
    rewrite (lstrip_head_app t post c) by (subst; auto).
    rewrite reverse_app, lstrip_spaces_app by (by apply Forall_reverse).
    assert (is_Some (last t)) as [c' Hc'].
    { rewrite last_is_Some. by subst. }
    rewrite <- head_reverse in Hc'.
    destruct (reverse t) as [|c'' r] eqn:Hr; [done|].
    injection Hc' as ->. cbn [lstrip].
    rewrite (Hlast c') by (by rewrite <- head_reverse, Hr).
    by rewrite <- Hr, reverse_involutive.
Qed.

End Strip.

Section Load.

Implicit Types (st : State) (f : file_iter) (raw lines : list pystr).

(** Reading a file that has no read error yields the trimmed lines that
    are not blank. *)
Lemma stripped_lines_file_of_lines raw :
  stripped_lines (file_of_lines raw) = Ok (spec_targets raw).
Proof.
  unfold spec_targets. induction raw as [|line raw IH]; cbn; [done|].
  rewrite IH. cbn. rewrite truthy_str_strip.
  by destruct (blank line).
Qed.

(** A source is either unreadable or a list of lines read to the end. *)
Lemma readable_file_of_lines f :
  read_fails f = false → ∃ raw, f = file_of_lines raw.
Proof.
  induction f as [|line rest IH|e]; cbn.
  - by exists [].
  - intros [raw ->]%IH. by exists (line :: raw).
  - discriminate.
Qed.

(** A read error anywhere in the file aborts the comprehension. *)
Lemma stripped_lines_read_fails f :
  read_fails f = true → ∃ e, stripped_lines f = Raise e.
Proof.
  induction f as [|line rest IH|e]; cbn.
  - discriminate.
  - intros [e He]%IH. exists e. by rewrite He.
  - by exists e.
Qed.

Lemma foldl_insert_lookup_fresh (kvs : list (Z * pystr)) (m : gmap Z pystr)
    (k : Z) :
  k ∉ kvs.*1 → foldl (λ m kv, <[kv.1 := kv.2]> m) m kvs !! k = m !! k.
Proof.
  revert m. induction kvs as [|[k' v'] kvs IH]; intros m; cbn; [done|].
  intros [Hne Hnotin]%not_elem_of_cons.
  rewrite IH by done. by apply lookup_insert_ne.
Qed.

(** A dict built from distinct keys zipped with values: the [i]-th key
    holds the [i]-th value when there is one. *)
Lemma foldl_insert_zip_lookup (keys : list Z) (vals : list pystr)
    (m : gmap Z pystr) (i : nat) (k : Z) :
  NoDup keys → keys !! i = Some k →
  foldl (λ m kv, <[kv.1 := kv.2]> m) m (zip keys vals) !! k
  = match vals !! i with Some v => Some v | None => m !! k end.
Proof.
  intros Hnd. revert vals m i.
  induction Hnd as [|k0 keys Hk0 Hnd IH]; intros vals m i; [done|].
  destruct vals as [|v0 vals]; [by destruct i|].
  destruct i as [|i]; cbn.
  - intros [= ->]. rewrite foldl_insert_lookup_fresh.
    + apply lookup_insert_eq.
    + intros [[k' v'] [-> Hin%elem_of_zip_l]]%list_elem_of_fmap. done.
  - intros Hi. rewrite (IH _ _ i) by done.
    destruct (vals !! i); [done|]. apply lookup_insert_ne.
    intros ->. apply Hk0. by eapply list_elem_of_lookup_2.
Qed.

Lemma NoDup_HOTKEY_KEYCODES : NoDup HOTKEY_KEYCODES.
Proof. apply (bool_decide_unpack (NoDup HOTKEY_KEYCODES)). by vm_compute. Qed.

Lemma load_mappings_readable raw st :
  load_mappings (Opened (file_of_lines raw)) st
  = (set_mapping (dict_of_pairs (zip HOTKEY_KEYCODES (spec_targets raw))) st,
     slot_report (zip HOTKEY_KEYCODES (spec_targets raw))).
Proof.
  unfold load_mappings, load_mappings_try. cbn.
  by rewrite stripped_lines_file_of_lines.
Qed.

(** C4. When the config file cannot be opened, or a read of it raises,
    the load fails and [load_mappings] leaves the whole module state,
    [mapping] included, as it was; it only prints the failure. *)
Theorem unreadable_source_keeps_mapping (src : config_source) st :
  unreadable src = true →
  ∃ e, load_mappings_try src st = Raise e ∧
       load_mappings src st = (st, [FailedToLoad e]) ∧
       mapping (load_mappings src st).1 = mapping st.
Proof.
  unfold load_mappings, load_mappings_try.
  destruct src as [f|e]; cbn.
  - intros [e He]%stripped_lines_read_fails. exists e. by rewrite He.
  - intros _. by exists e.
Qed.

(** C5. Loading a file that is read without error installs the table
    that sends the [i]-th hotkey keycode to the [i]-th target, where the
    targets are the lines of the file that are not blank, each trimmed of
    the white space around it, in file order. A keycode whose position
    has no target, and any key that is not a hotkey keycode, is absent
    from the table; so targets beyond the ninth are dropped. *)
Theorem load_assigns_targets_by_position raw st :
  let st' := (load_mappings (Opened (file_of_lines raw)) st).1 in
  (∀ i code, HOTKEY_KEYCODES !! i = Some code →
     mapping st' !! code = spec_targets raw !! i) ∧
  (∀ k, k ∉ HOTKEY_KEYCODES → mapping st' !! k = None) ∧
  (∀ k t, mapping st' !! k = Some t →
     ∃ i, (i < 9)%nat ∧ HOTKEY_KEYCODES !! i = Some k ∧
          spec_targets raw !! i = Some t) ∧
  (∀ t, t ∈ spec_targets raw ↔
     ∃ line, line ∈ raw ∧ blank line = false ∧ trimmed line t) ∧
  (∀ line t, trimmed line t → (t = [] ↔ blank line = true)).
Proof.
  intros st'. subst st'. rewrite load_mappings_readable. cbn.
  assert (Hpos : ∀ i code, HOTKEY_KEYCODES !! i = Some code →
     dict_of_pairs (zip HOTKEY_KEYCODES (spec_targets raw)) !! code
     = spec_targets raw !! i).
  { intros i code Hi. unfold dict_of_pairs.
    rewrite (foldl_insert_zip_lookup _ _ _ i)
      by auto using NoDup_HOTKEY_KEYCODES.
    by destruct (spec_targets raw !! i). }
  assert (Hout : ∀ k, k ∉ HOTKEY_KEYCODES →
     dict_of_pairs (zip HOTKEY_KEYCODES (spec_targets raw)) !! k = None).
  { intros k Hk. unfold dict_of_pairs.
    rewrite foldl_insert_lookup_fresh; [apply lookup_empty|].
    intros [[k' v'] [-> Hin%elem_of_zip_l]]%list_elem_of_fmap. done. }
  split; [exact Hpos|]. split; [exact Hout|]. split; [|split].
  - intros k t Hk.
    destruct (decide (k ∈ HOTKEY_KEYCODES)) as [Hin|Hnotin].
    + apply list_elem_of_lookup in Hin as [i Hi].
      exists i. split; [|split].
      * by apply lookup_lt_Some in Hi.
      * done.
      * by rewrite <- (Hpos i k).
    + by rewrite Hout in Hk.
  - intros t. unfold spec_targets. rewrite list_elem_of_In, in_map_iff.
    split.
    + intros (line & <- & [Hin Hb]%filter_In).
      exists line. rewrite list_elem_of_In.
      split; [done|]. split; [by destruct (blank line)|apply strip_trimmed].
    + intros (line & Hin & Hb & ->%trimmed_strip).
      exists line. split; [done|]. apply filter_In.
      rewrite <- list_elem_of_In. by rewrite Hb.
  - intros line t ->%trimmed_strip. apply strip_nil.
Qed.

End Load.

(** ** The sample session *)

Example loaded_mapping :
  mapping loaded = {[18 := py "com.app.One"; 19 := py "com.app.Two"]}.
Proof. by vm_compute. Qed.

Example fired_untracked_state :
  fired_untracked
  = mkState (mapping loaded) [py "com.app.One"] {[18]} false None [].
Proof. by vm_compute. Qed.

Lemma installed_loaded : installed (mapping loaded).
Proof. exact (installed_load sample_config initial_state installed_initial). Defined.

(** Option+1 on the loaded table fires once; two auto-repeats follow. *)
Lemma first_key_down_fires_once_witness :
  (tap_callback alt_mask loaded kCGEventKeyDown option_1_down).1 = None ∧
  _launch_q (tap_callback alt_mask loaded kCGEventKeyDown option_1_down).2
    = [] ++ [py "com.app.One"] ∧
  _pressed_fired (tap_callback alt_mask loaded kCGEventKeyDown option_1_down).2
    = {[18]} ∪ ∅ ∧
  run alt_mask
      (tap_callback alt_mask loaded kCGEventKeyDown option_1_down).2
      (pair kCGEventKeyDown <$> [option_1_down; option_1_down])
    = (Some <$> [option_1_down; option_1_down],
       (tap_callback alt_mask loaded kCGEventKeyDown option_1_down).2).
Proof.
  apply (first_key_down_fires_once alt_mask loaded 18 (py "com.app.One")
           option_1_down [option_1_down; option_1_down]).
  - exact installed_loaded.
  - by vm_compute.
  - reflexivity.
  - reflexivity.
  - apply not_elem_of_empty.
  - repeat constructor.
Defined.

(** The claim of C2 fails after Option+1 fired with the Option press
    unseen: the modifier-changed event that follows is an up-to-down
    transition of the tracked state, and 18 stays in [_pressed_fired]. *)
Lemma modifier_press_leaves_fired_keys :
  _alt_down fired_untracked = false ∧
  modifier_bit alt_mask option_pressed = true ∧
  _pressed_fired
    (tap_callback alt_mask fired_untracked kCGEventFlagsChanged
       option_pressed).2 ≠ ∅.
Proof.
  split; [reflexivity|]. split; [reflexivity|].
  intros Hempty.
  apply (not_elem_of_empty (C := gset Z) 18). rewrite <- Hempty.
  by vm_compute.
Qed.

Lemma modifier_press_keeps_debounce_witness :
  _alt_down fired_untracked = false ∧
  modifier_bit alt_mask option_pressed = true ∧
  (tap_callback alt_mask fired_untracked kCGEventFlagsChanged
     option_pressed).1 = Some option_pressed ∧
  _alt_down
    (tap_callback alt_mask fired_untracked kCGEventFlagsChanged
       option_pressed).2 = true ∧
  _pressed_fired
    (tap_callback alt_mask fired_untracked kCGEventFlagsChanged
       option_pressed).2 = _pressed_fired fired_untracked.
Proof.
  split; [reflexivity|]. split; [reflexivity|].
  destruct (modifier_press_keeps_debounce alt_mask fired_untracked
              option_pressed) as (Hr & Ha & _ & _ & Hupdown & _).
  split; [exact Hr|]. split; [exact Ha|].
  apply Hupdown; reflexivity.
Defined.



Lemma unreadable_source_keeps_mapping_witness :
  unreadable broken_config = true ∧
  ∃ e, load_mappings_try broken_config loaded = Raise e ∧
       load_mappings broken_config loaded = (loaded, [FailedToLoad e]) ∧
       mapping (load_mappings broken_config loaded).1 = mapping loaded.
Proof.
  split; [reflexivity|].
  apply (unreadable_source_keeps_mapping broken_config loaded).
  reflexivity.
Defined.

(** Option+3: keycode 20 has no target in the two-line table. *)
Lemma unmapped_key_down_forwarded_witness :
  mapping loaded !! 20 = None ∧
  tap_callback alt_mask loaded kCGEventKeyDown option_3_down
  = (Some option_3_down, loaded).
Proof.
  split; [by vm_compute|].
  apply (unmapped_key_down_forwarded alt_mask loaded 20 option_3_down).
  - by vm_compute.
  - reflexivity.
  - reflexivity.
Defined.

(** Option+1 fired, then Option is released and pressed again while 1 is
    still down: the next key-down on 1 fires again. *)
Lemma modifier_release_clears_debounce_witness :
  18 ∈ _pressed_fired fired_tracked ∧
  _pressed_fired
    (tap_callback alt_mask fired_tracked kCGEventFlagsChanged
       option_released).2 = ∅ ∧
  (run alt_mask fired_tracked
     [(kCGEventFlagsChanged, option_released);
      (kCGEventFlagsChanged, option_pressed);
      (kCGEventKeyDown, option_1_down)]).1
    = [Some option_released; Some option_pressed; None] ∧
  _launch_q
    (run alt_mask fired_tracked
       [(kCGEventFlagsChanged, option_released);
        (kCGEventFlagsChanged, option_pressed);
        (kCGEventKeyDown, option_1_down)]).2
    = _launch_q fired_tracked ++ [py "com.app.One"].
Proof.
  split.
  - change (_pressed_fired fired_tracked) with ({[18]} ∪ (∅ : gset Z)).
    apply elem_of_union_l. by apply elem_of_singleton.
  - destruct (modifier_release_clears_debounce alt_mask fired_tracked
                option_released) as (_ & Hclear & Hagain).
    + reflexivity.
    + reflexivity.
    + split; [exact Hclear|].
      apply (Hagain 18 (py "com.app.One") option_pressed option_1_down).
      * exact installed_loaded.
      * by vm_compute.
      * reflexivity.
      * reflexivity.
      * reflexivity.
Defined.

(** Option+1, release of 1, Option+1 again: two launches. *)
Lemma key_up_releases_debounce_witness :
  (run alt_mask loaded
     [(kCGEventKeyDown, option_1_down); (kCGEventKeyUp, plain_1_up);
      (kCGEventKeyDown, option_1_down)]).1 = [None; Some plain_1_up; None] ∧
  _launch_q
    (run alt_mask loaded
       [(kCGEventKeyDown, option_1_down); (kCGEventKeyUp, plain_1_up);
        (kCGEventKeyDown, option_1_down)]).2
    = [py "com.app.One"; py "com.app.One"].
Proof.
  destruct (key_up_releases_debounce alt_mask loaded plain_1_up)
    as (_ & _ & _ & _ & Hrefire).
  destruct (Hrefire 18 (py "com.app.One") option_1_down)
    as (_ & _ & Hrun).
  - exact installed_loaded.
  - by vm_compute.
  - reflexivity.
  - reflexivity.
  - reflexivity.
  - rewrite Hrun by apply not_elem_of_empty. split; reflexivity.
Defined.

(** * Further properties *)

(** ** What a load installs and prints *)

Section LoadTable.

Implicit Types (st : State) (raw lines : list pystr) (k : Z) (t : pystr).

Lemma hotkey_lookup lines (i : nat) k :
  HOTKEY_KEYCODES !! i = Some k →
  dict_of_pairs (zip HOTKEY_KEYCODES lines) !! k = lines !! i.
Proof.
  intros Hi. unfold dict_of_pairs.
  rewrite (foldl_insert_zip_lookup _ _ _ i)
    by auto using NoDup_HOTKEY_KEYCODES.
  by destruct (lines !! i).
Qed.

Lemma hotkey_dom lines :
  dom (dict_of_pairs (zip HOTKEY_KEYCODES lines))
  = list_to_set (take (length lines) HOTKEY_KEYCODES).
Proof.
  apply set_eq. intros k.
  rewrite elem_of_dom, elem_of_list_to_set, elem_of_take. split.
  - intros [t Ht]. pose proof (dict_of_pairs_elem _ _ _ Ht) as Hin.
    apply list_elem_of_lookup in Hin as [i Hi].
    apply lookup_zip_with_Some in Hi as (k' & t' & [= <- <-] & Hk & Hl).
    exists i. split; [done|]. by apply lookup_lt_Some in Hl.
  - intros (i & Hi & Hlt). rewrite (hotkey_lookup _ i) by done.
    by apply lookup_lt_is_Some.
Qed.

Lemma hotkey_size lines :
  size (dict_of_pairs (zip HOTKEY_KEYCODES lines))
  = (length lines `min` 9)%nat.
Proof.
  rewrite <- size_dom, hotkey_dom, size_list_to_set.
  - by rewrite length_take.
  - eapply sublist_NoDup; [apply NoDup_HOTKEY_KEYCODES|apply sublist_take].
Qed.

Lemma spec_targets_blank raw :
  Forall (λ line, blank line = true) raw → spec_targets raw = [].
Proof.
  unfold spec_targets. induction 1 as [|line raw Hb _ IH]; cbn; [done|].
  by rewrite Hb.
Qed.

Lemma strip_idemp (s : pystr) : strip (strip s) = strip s.
Proof.
  symmetry. apply trimmed_strip.
  destruct (strip_trimmed s) as (_ & _ & _ & _ & _ & Hhead & Hlast).
  exists [], []. by rewrite app_nil_r.
Qed.

Lemma stripped_lines_clean (f : file_iter) lines :
  stripped_lines f = Ok lines →
  Forall (λ t, t ≠ [] ∧ strip t = t) lines.
Proof.
  revert lines. induction f as [|line rest IH|e]; intros lines; cbn.
  - intros [= <-]. constructor.
  - destruct (stripped_lines rest) as [tail|e]; cbn; [|discriminate].
    intros [= <-]. specialize (IH tail eq_refl).
    destruct (strip line) as [|c t'] eqn:Hl; cbn; [done|].
    constructor; [|done]. split; [done|]. rewrite <- Hl. apply strip_idemp.
  - discriminate.
Qed.

(** X1. Loading is idempotent: running [load_mappings] again on the same
    source gives the state and the output of the first run, whether the
    source could be read or not. A repeated change notification for one
    write is harmless. *)
Theorem load_mappings_idempotent (src : config_source) st :
  load_mappings src (load_mappings src st).1 = load_mappings src st.
Proof.
  unfold load_mappings, load_mappings_try.
  destruct src as [f|e]; cbn; [|done].
  by destruct (stripped_lines f).
Qed.

(** X2. A file that holds blank lines only, or nothing at all, is read
    without error and installs the empty table: unlike an unreadable
    file, it removes every hotkey. Nothing is printed. *)
Theorem blank_file_clears_mapping raw st :
  Forall (λ line, blank line = true) raw →
  load_mappings (Opened (file_of_lines raw)) st = (set_mapping ∅ st, []).
Proof.
  intros Hblank. rewrite load_mappings_readable.
  by rewrite spec_targets_blank.
Qed.

(** X3. After a load that read [n] targets, the table holds exactly the
    first [min n 9] hotkey keycodes, so it has [min n 9] entries. *)
Theorem loaded_table_domain raw st :
  dom (mapping (load_mappings (Opened (file_of_lines raw)) st).1)
  = list_to_set (take (length (spec_targets raw)) HOTKEY_KEYCODES) ∧
  size (mapping (load_mappings (Opened (file_of_lines raw)) st).1)
  = (length (spec_targets raw) `min` 9)%nat.
Proof.
  rewrite load_mappings_readable. cbn. split.
  - apply hotkey_dom.
  - apply hotkey_size.
Qed.

(** X4. The lines a successful load prints agree with the table it has
    installed: line [j] (from 0) exists exactly when the [j]-th hotkey
    keycode is mapped, and it shows the number [j + 1] and the target of
    that keycode. *)
Theorem slot_report_matches_mapping raw st (j : nat) :
  (load_mappings (Opened (file_of_lines raw)) st).2 !! j
  = k ← HOTKEY_KEYCODES !! j;
    SlotLine (j + 1) <$>
      mapping (load_mappings (Opened (file_of_lines raw)) st).1 !! k.
Proof.
  rewrite load_mappings_readable. cbn [fst snd mapping set_mapping].
  unfold slot_report. rewrite list_lookup_imap, list_lookup_fmap.
  rewrite lookup_zip_with.
  destruct (HOTKEY_KEYCODES !! j) as [k|] eqn:Hj;
    cbn -[dict_of_pairs zip_with]; [|done].
  rewrite (hotkey_lookup _ j) by done.
  by destruct (spec_targets raw !! j).
Qed.

Lemma installed_entry (m : gmap Z pystr) k t :
  installed m → m !! k = Some t →
  k ∈ HOTKEY_KEYCODES ∧ t ≠ [] ∧ strip t = t.
Proof.
  intros Hm. revert k t. induction Hm as [|src st _ IH]; intros k t.
  - by rewrite lookup_empty.
  - destruct (load_mappings_mapping src st) as [->|(f & lines & _ & Hf & ->)];
      [apply IH|].
    intros Hk%dict_of_pairs_elem.
    split; [by apply elem_of_zip_l in Hk|].
    apply elem_of_zip_r in Hk.
    pose proof (stripped_lines_clean _ _ Hf) as Hall.
    rewrite Forall_forall in Hall. by apply Hall.
Qed.

(** X5. Every table that [mapping] can hold has at most nine entries;
    its keys are hotkey keycodes and its targets are non-empty strings
    with no white space at either end. *)
Theorem installed_table_clean (m : gmap Z pystr) :
  installed m →
  (size m ≤ 9)%nat ∧
  ∀ k t, m !! k = Some t →
    k ∈ HOTKEY_KEYCODES ∧ t ≠ [] ∧ strip t = t.
Proof.
  intros Hm. split; [|eauto using installed_entry].
  induction Hm as [|src st _ IH].
  - rewrite map_size_empty. lia.
  - destruct (load_mappings_mapping src st) as [->|(f & lines & _ & _ & ->)];
      [done|].
    rewrite hotkey_size. lia.
Qed.

End LoadTable.

(** ** The dispatcher over many events, and between reloads *)

Section ProgramProperties.

Context (kCGEventFlagMaskAlternate : Z).

Lemma run_cons (st : State) (type_ : CGEventType) (event : CGEvent)
    (evs : list (CGEventType * CGEvent)) :
  run kCGEventFlagMaskAlternate st ((type_, event) :: evs)
  = ((tap_callback kCGEventFlagMaskAlternate st type_ event).1
       :: (run kCGEventFlagMaskAlternate
             (tap_callback kCGEventFlagMaskAlternate st type_ event).2 evs).1,
     (run kCGEventFlagMaskAlternate
        (tap_callback kCGEventFlagMaskAlternate st type_ event).2 evs).2).
Proof.
  cbn [run].
  destruct (tap_callback kCGEventFlagMaskAlternate st type_ event) as [r st1].
  cbn [fst snd]. by destruct (run kCGEventFlagMaskAlternate st1 evs).
Qed.


Local Abbreviation tap_callback := (tap_callback kCGEventFlagMaskAlternate).
Local Abbreviation modifier_bit := (modifier_bit kCGEventFlagMaskAlternate).
Local Abbreviation run := (run kCGEventFlagMaskAlternate).
Local Abbreviation step := (step kCGEventFlagMaskAlternate).
Local Abbreviation exec := (exec kCGEventFlagMaskAlternate).

Implicit Types (st : State) (event : CGEvent) (k : Z) (t T : pystr)
  (evs : list (CGEventType * CGEvent)).

(** One call either passes the event on and leaves the queue alone, or
    swallows a key-down and queues the non-empty target of its key. *)
Lemma tap_callback_cases st (type_ : CGEventType) event :
  (tap_callback st type_ event).1 = Some event ∧
  _launch_q (tap_callback st type_ event).2 = _launch_q st ∧
  _pressed_fired (tap_callback st type_ event).2 ⊆ _pressed_fired st
  ∨
  ∃ T, type_ = kCGEventKeyDown ∧ modifier_bit event = true ∧
       mapping st !! kCGKeyboardEventKeycode event = Some T ∧
       truthy_str T = true ∧
       tap_callback st type_ event
       = (None,
          launch_q_put T
            (set_pressed_fired
               ({[kCGKeyboardEventKeycode event]} ∪ _pressed_fired st) st)).
Proof.
  destruct type_.
  - left. cbn. by destruct (_tap_port st).
  - left. cbn. by destruct (_tap_port st).
  - left. rewrite flags_changed_state. cbn [fst snd].
    destruct (_ && _); cbn; by split_and!.
  - destruct (modifier_bit event) eqn:Hbit;
      [|left; by rewrite key_down_no_modifier].
    destruct (mapping st !! kCGKeyboardEventKeycode event) as [T|] eqn:Hmap;
      [|left; by rewrite key_down_unmapped].
    destruct (decide (kCGKeyboardEventKeycode event ∈ _pressed_fired st));
      [left; by rewrite key_down_debounced|].
    destruct (truthy_str T) eqn:HT.
    + right. exists T. split_and!; try done. by apply key_down_fires.
    + left. unfold modifier_bit in Hbit. cbn. by rewrite Hbit, Hmap, HT.
  - left. rewrite key_up_state. cbn. split_and!; try done.
    intros x. rewrite elem_of_difference. tauto.
  - left. by cbn.
Qed.

Lemma tap_callback_other_fields st (type_ : CGEventType) event :
  _tap_port (tap_callback st type_ event).2 = _tap_port st ∧
  (type_ ≠ kCGEventFlagsChanged →
   _alt_down (tap_callback st type_ event).2 = _alt_down st).
Proof.
  destruct type_; cbn; (split; [|intros Hne; try (by destruct Hne)]).
  all: try by destruct (_tap_port st) eqn:Hp.
  all: try by destruct (_ && _).
  all: try by destruct (bool_decide _).
  all: destruct (truthy_int _); [|done];
    destruct (mapping st !! _) as [T|]; [|done];
    by destruct (truthy_str T && _).
Qed.

Lemma load_mappings_keeps (src : config_source) st :
  _launch_q (load_mappings src st).1 = _launch_q st ∧
  _pressed_fired (load_mappings src st).1 = _pressed_fired st ∧
  _alt_down (load_mappings src st).1 = _alt_down st ∧
  _tap_port (load_mappings src st).1 = _tap_port st ∧
  tap_enabled (load_mappings src st).1 = tap_enabled st.
Proof.
  unfold load_mappings, load_mappings_try.
  destruct src as [f|e]; cbn; [|done].
  by destruct (stripped_lines f).
Qed.

(** X6. A reload, readable or not, changes nothing but [mapping]: the
    debounce state, the launch queue and the tracked modifier state are
    as before, whatever they hold. So a key that has fired and is still
    held stays debounced across the reload: its next key-down is passed
    on and launches nothing, even if the new table gives the key another
    target. *)
Theorem reload_keeps_debounce (src : config_source) st :
  (load_mappings src st).1
    = set_mapping (mapping (load_mappings src st).1) st ∧
  _pressed_fired (load_mappings src st).1 = _pressed_fired st ∧
  _launch_q (load_mappings src st).1 = _launch_q st ∧
  _alt_down (load_mappings src st).1 = _alt_down st ∧
  ∀ k event,
    k ∈ _pressed_fired st →
    kCGKeyboardEventKeycode event = k →
    tap_callback (load_mappings src st).1 kCGEventKeyDown event
    = (Some event, (load_mappings src st).1).
Proof.
  assert (Hsame : (load_mappings src st).1
                  = set_mapping (mapping (load_mappings src st).1) st).
  { unfold load_mappings, load_mappings_try.
    destruct src as [f|e]; cbn; [|by destruct st].
    destruct (stripped_lines f); cbn; [done|by destruct st]. }
  split; [exact Hsame|].
  split; [by rewrite Hsame|]. split; [by rewrite Hsame|].
  split; [by rewrite Hsame|].
  intros k event Hin <-. apply key_down_debounced.
  by rewrite Hsame.
Qed.

(** X7. A reload takes effect for the next key-down. After a file is
    loaded, a modifier-held key-down on the [i]-th hotkey keycode, not
    debounced, is swallowed and queues the [i]-th target of the new file;
    if the new file has no [i]-th target it is passed on and nothing is
    queued, whatever the table held before. *)
Theorem reload_takes_effect raw st (i : nat) k event :
  HOTKEY_KEYCODES !! i = Some k →
  kCGKeyboardEventKeycode event = k →
  modifier_bit event = true →
  k ∉ _pressed_fired st →
  match spec_targets raw !! i with
  | Some t =>
      (tap_callback (load_mappings (Opened (file_of_lines raw)) st).1
         kCGEventKeyDown event).1 = None ∧
      _launch_q
        (tap_callback (load_mappings (Opened (file_of_lines raw)) st).1
           kCGEventKeyDown event).2 = _launch_q st ++ [t]
  | None =>
      tap_callback (load_mappings (Opened (file_of_lines raw)) st).1
        kCGEventKeyDown event
      = (Some event, (load_mappings (Opened (file_of_lines raw)) st).1)
  end.
Proof.
  intros Hi <- Hbit Hfresh.
  pose proof (hotkey_lookup (spec_targets raw) i _ Hi) as Hmap.
  rewrite load_mappings_readable. cbn [fst].
  destruct (spec_targets raw !! i) as [t|] eqn:Ht.
  - rewrite (key_down_fires _ _ event t); cbn; try done.
    pose proof (stripped_lines_truthy _ _
                  (stripped_lines_file_of_lines raw)) as Hall.
    by apply (Forall_lookup_1 _ _ _ _ Hall Ht).
  - by apply key_down_unmapped.
Qed.

Lemma run_snoc st evs (type_ : CGEventType) event :
  run st (evs ++ [(type_, event)])
  = ((run st evs).1 ++ [(tap_callback (run st evs).2 type_ event).1],
     (tap_callback (run st evs).2 type_ event).2).
Proof. by rewrite run_app, run_cons. Qed.

Lemma run_queue_length st evs :
  length (_launch_q (run st evs).2)
  = (length (_launch_q st) + suppressed (run st evs).1)%nat.
Proof.
  revert st. induction evs as [|[ty ev] evs IH]; intros st; [cbn; lia|].
  rewrite run_cons. cbn [fst snd]. rewrite IH.
  destruct (tap_callback_cases st ty ev)
    as [(Hr & Hq & _)|(T & _ & _ & _ & _ & Heq)].
  - by rewrite Hr, Hq.
  - rewrite Heq. cbn [fst snd launch_q_put _launch_q].
    rewrite length_app. unfold suppressed. cbn. lia.
Qed.

(** X8. Over any sequence of events the launch queue only grows at its
    end, by as many items as there were swallowed events; there is one
    result per event, and every item added is a non-empty target of the
    table. This holds for every table, installed or not: an empty target
    is never queued. *)
Theorem launches_match_suppressed st evs :
  ∃ added,
    _launch_q (run st evs).2 = _launch_q st ++ added ∧
    length added = suppressed (run st evs).1 ∧
    length (run st evs).1 = length evs ∧
    Forall (λ t, t ≠ [] ∧ ∃ k, mapping st !! k = Some t) added.
Proof.
  revert st. induction evs as [|[ty ev] evs IH]; intros st.
  - exists []. by rewrite app_nil_r.
  - rewrite run_cons. cbn [fst snd].
    destruct (IH (tap_callback st ty ev).2) as (added & Hq & Hn & Hlen & Hall).
    rewrite tap_callback_mapping in Hall.
    destruct (tap_callback_cases st ty ev)
      as [(Hr & Hq1 & _)|(T & -> & _ & Hmap & HT & Heq)].
    + exists added. rewrite Hr, Hq, Hq1. cbn. by rewrite Hlen.
    + rewrite Heq in Hq, Hn, Hlen |- *. cbn [fst snd] in *.
      exists (T :: added). rewrite Hq. cbn.
      rewrite <- app_assoc, Hn, Hlen. split_and!; try done.
      constructor; [|done]. split; [by destruct T|eauto].
Qed.

Lemma run_keeps_alt_down st evs :
  Forall (λ e, e.1 ≠ kCGEventFlagsChanged) evs →
  _alt_down (run st evs).2 = _alt_down st.
Proof.
  intros Hevs. revert st.
  induction Hevs as [|[ty ev] evs Hty _ IH]; intros st; [done|].
  rewrite run_cons. cbn [snd]. rewrite IH.
  by apply tap_callback_other_fields.
Qed.

(** X9. [_alt_down] is the modifier bit of the last modifier-changed
    event delivered: the events of other kinds that follow it do not
    write it. *)
Theorem alt_down_follows_last_flags_event st evs event
    (evs' : list (CGEventType * CGEvent)) :
  Forall (λ e, e.1 ≠ kCGEventFlagsChanged) evs' →
  _alt_down (run st (evs ++ (kCGEventFlagsChanged, event) :: evs')).2
  = modifier_bit event.
Proof.
  intros Hevs'. rewrite run_app. cbn [snd]. rewrite run_cons. cbn [snd].
  rewrite run_keeps_alt_down by done. rewrite flags_changed_state.
  cbn [snd]. by destruct (_ && _).
Qed.

Lemma tap_callback_keeps_fired st (type_ : CGEventType) event k :
  k ∈ _pressed_fired st →
  ¬ (type_ = kCGEventKeyUp ∧ kCGKeyboardEventKeycode event = k) →
  ¬ (type_ = kCGEventFlagsChanged ∧ modifier_bit event = false) →
  k ∈ _pressed_fired (tap_callback st type_ event).2.
Proof.
  intros Hin Hup Hrel. destruct type_.
  - cbn. by destruct (_tap_port st).
  - cbn. by destruct (_tap_port st).
  - rewrite flags_changed_state. cbn [snd].
    destruct (modifier_bit event); [|by destruct Hrel].
    by rewrite andb_false_r.
  - cbn. destruct (truthy_int _); [|done].
    destruct (mapping st !! _) as [T|]; [|done].
    destruct (truthy_str T && _); [|done].
    cbn. by apply elem_of_union_r.
  - rewrite key_up_state. cbn. apply elem_of_difference. split; [done|].
    rewrite elem_of_singleton. intros ->. by apply Hup.
  - done.
Qed.

(** X10. Once a key has fired it stays debounced through any events
    that include neither its own key-up nor a modifier-changed event
    with the modifier bit clear: key events of other keys, further
    key-downs, modifier presses and tap notices leave it in
    [_pressed_fired], and its next key-down is passed on without a
    launch. *)
Theorem debounce_holds_until_release st k evs event :
  k ∈ _pressed_fired st →
  Forall (λ e, ¬ (e.1 = kCGEventKeyUp ∧ kCGKeyboardEventKeycode e.2 = k) ∧
               ¬ (e.1 = kCGEventFlagsChanged ∧ modifier_bit e.2 = false))
         evs →
  kCGKeyboardEventKeycode event = k →
  k ∈ _pressed_fired (run st evs).2 ∧
  run st (evs ++ [(kCGEventKeyDown, event)])
  = ((run st evs).1 ++ [Some event], (run st evs).2).
Proof.
  intros Hin Hevs <-.
  assert (Hkept : kCGKeyboardEventKeycode event ∈ _pressed_fired (run st evs).2).
  { revert st Hin.
    induction Hevs as [|[ty ev] evs [Hup Hrel] _ IH]; intros st Hin; [done|].
    rewrite run_cons. cbn [snd]. apply IH.
    by apply tap_callback_keeps_fired. }
  split; [done|]. rewrite run_snoc. by rewrite key_down_debounced.
Qed.

Lemma run_empty_mapping st evs :
  mapping st = ∅ →
  (run st evs).1 = Some <$> evs.*2 ∧
  _launch_q (run st evs).2 = _launch_q st.
Proof.
  revert st. induction evs as [|[ty ev] evs IH]; intros st Hm; [done|].
  rewrite run_cons. cbn [fst snd].
  destruct (tap_callback_cases st ty ev)
    as [(Hr & Hq & _)|(T & _ & _ & Hmap & _)].
  - destruct (IH (tap_callback st ty ev).2) as [Hrs Hqs].
    { by rewrite tap_callback_mapping. }
    by rewrite Hr, Hrs, Hqs, Hq.
  - by rewrite Hm, lookup_empty in Hmap.
Qed.

(** X11. A config file that cannot be read at startup is not fatal: when
    the tap is created, [main] enters the run loop with the empty table,
    and then every event of every kind is passed on and nothing is ever
    queued, until a later reload succeeds. *)
Theorem main_without_config_forwards_all (src : config_source) (port : Z)
    evs :
  unreadable src = true →
  ∃ st0 out,
    main src (Some port) = RunLoop st0 out ∧
    mapping st0 = ∅ ∧
    (run st0 evs).1 = Some <$> evs.*2 ∧
    _launch_q (run st0 evs).2 = [].
Proof.
  intros Hsrc.
  assert (Hload : ∃ e, load_mappings src initial_state
                       = (initial_state, [FailedToLoad e])).
  { unfold load_mappings, load_mappings_try. destruct src as [f|e]; cbn.
    - destruct (stripped_lines_read_fails f Hsrc) as [e He].
      exists e. by rewrite He.
    - by exists e. }
  destruct Hload as [e Hload]. unfold main. rewrite Hload.
  eexists _, _. split; [done|]. split; [done|].
  by apply run_empty_mapping.
Qed.

Lemma step_invariant (port : Z) st (a : action) :
  installed (mapping st) ∧
  _pressed_fired st ⊆ list_to_set HOTKEY_KEYCODES ∧
  Forall (λ t, t ≠ [] ∧ strip t = t) (_launch_q st) ∧
  _tap_port st = Some port →
  installed (mapping (step st a)) ∧
  _pressed_fired (step st a) ⊆ list_to_set HOTKEY_KEYCODES ∧
  Forall (λ t, t ≠ [] ∧ strip t = t) (_launch_q (step st a)) ∧
  _tap_port (step st a) = Some port.
Proof.
  intros (Hm & Hp & Hq & Ht). destruct a as [ty ev|src].
  - change (step st (Deliver ty ev)) with (tap_callback st ty ev).2.
    pose proof (tap_callback_mapping kCGEventFlagMaskAlternate st ty ev) as Hm'.
    destruct (tap_callback_other_fields st ty ev) as [Ht' _].
    destruct (tap_callback_cases st ty ev)
      as [(_ & Hq1 & Hp1)|(T & _ & _ & Hmap & _ & Heq)].
    + rewrite Hm', Hq1, Ht'. split_and!; try done. by etrans.
    + rewrite Hm', Ht'. rewrite Heq. cbn.
      destruct (installed_entry _ _ _ Hm Hmap) as (Hk & HT).
      split_and!; try done.
      * apply union_subseteq. split; [|done].
        apply singleton_subseteq_l.
        exact (proj2 (elem_of_list_to_set (C := gset Z) _ HOTKEY_KEYCODES) Hk).
      * apply Forall_app. split; [done|]. by constructor.
  - change (step st (Reload src)) with (load_mappings src st).1.
    destruct (load_mappings_keeps src st) as (-> & -> & _ & -> & _).
    split_and!; try done. by apply installed_load.
Qed.

(** X12. Whatever events are delivered and whatever reloads happen, in
    any order, after [main] has entered the run loop: [mapping] is a
    table some load installed, [_pressed_fired] holds hotkey keycodes
    only (so at most nine keys), every item waiting in the launch queue
    is a non-empty target without surrounding white space, and
    [_tap_port] is still the port [main] created. *)
Theorem running_program_invariant (src : config_source) (port : Z)
    (st0 : State) (out : list main_line) (acts : list action) :
  main src (Some port) = RunLoop st0 out →
  installed (mapping (exec st0 acts)) ∧
  _pressed_fired (exec st0 acts) ⊆ list_to_set HOTKEY_KEYCODES ∧
  (size (_pressed_fired (exec st0 acts)) ≤ 9)%nat ∧
  Forall (λ t, t ≠ [] ∧ strip t = t) (_launch_q (exec st0 acts)) ∧
  _tap_port (exec st0 acts) = Some port.
Proof.
  intros Hmain.
  assert (Hinv0 :
    installed (mapping st0) ∧
    _pressed_fired st0 ⊆ list_to_set HOTKEY_KEYCODES ∧
    Forall (λ t, t ≠ [] ∧ strip t = t) (_launch_q st0) ∧
    _tap_port st0 = Some port).
  { unfold main in Hmain.
    pose proof (load_mappings_keeps src initial_state) as (Hq & Hp & _).
    pose proof (installed_load src initial_state installed_initial) as Hm.
    destruct (load_mappings src initial_state) as [st1 out1].
    injection Hmain as <- _. cbn in *. rewrite Hq, Hp.
    split_and!; try done. }
  assert (Hinv :
    installed (mapping (exec st0 acts)) ∧
    _pressed_fired (exec st0 acts) ⊆ list_to_set HOTKEY_KEYCODES ∧
    Forall (λ t, t ≠ [] ∧ strip t = t) (_launch_q (exec st0 acts)) ∧
    _tap_port (exec st0 acts) = Some port).
  { clear Hmain. revert st0 Hinv0.
    induction acts as [|a acts IH]; intros st0 Hinv0; [done|].
    apply (IH (step st0 a)). by apply step_invariant. }
  destruct Hinv as (Hm & Hp & Hq & Ht). split_and!; try done.
  apply subseteq_size in Hp. rewrite size_list_to_set in Hp
    by apply NoDup_HOTKEY_KEYCODES. exact Hp.
Qed.

Lemma tap_callback_tap_enabled st (type_ : CGEventType) event :
  tap_enabled (tap_callback st type_ event).2
  = (if is_tap_disabled type_
     then match _tap_port st with Some port => [port] | None => [] end
     else []) ++ tap_enabled st.
Proof.
  destruct type_; cbn; try done.
  - by destruct (_tap_port st).
  - by destruct (_tap_port st).
  - by destruct (_ && _).
  - destruct (truthy_int _); [|done].
    destruct (mapping st !! _) as [T|]; [|done].
    by destruct (truthy_str T && _).
  - by destruct (bool_decide _).
Qed.

(** X13. The tap is switched back on once for every tap-disabled notice,
    of either kind, and by no other event: over any sequence of events
    [CGEventTapEnable] is called with the stored port as many times as
    there are such notices. While no port is stored the notices are
    passed on and nothing is called. *)
Theorem tap_reenabled_once_per_notice st evs :
  tap_enabled (run st evs).2
  = match _tap_port st with
    | Some port =>
        replicate (length (List.filter (λ e, is_tap_disabled e.1) evs)) port
    | None => []
    end ++ tap_enabled st.
Proof.
  revert st. induction evs as [|[ty ev] evs IH]; intros st.
  - by destruct (_tap_port st).
  - rewrite run_cons. cbn [snd]. rewrite IH, tap_callback_tap_enabled.
    destruct (tap_callback_other_fields st ty ev) as [-> _].
    cbn [List.filter fst].
    destruct (_tap_port st) as [port|]; [|by destruct (is_tap_disabled ty)].
    destruct (is_tap_disabled ty); [|done].
    cbn [length]. by rewrite replicate_S_end, <- app_assoc.
Qed.

End ProgramProperties.

(** ** Which flag bits the dispatcher reads *)

Lemma truthy_land_pow2 (flags n : Z) :
  0 ≤ n → truthy_int (Z.land flags (2 ^ n)) = Z.testbit flags n.
Proof.
  intros Hn. unfold truthy_int. destruct (Z.testbit flags n) eqn:Hb.
  - apply negb_true_iff, Z.eqb_neq. intros H0.
    assert (Hland : Z.testbit (Z.land flags (2 ^ n)) n = true).
    { by rewrite Z.land_spec, Hb, Z.pow2_bits_true. }
    rewrite H0, Z.bits_0 in Hland. discriminate.
  - apply negb_false_iff, Z.eqb_eq, Z.bits_inj'. intros m Hm.
    rewrite Z.land_spec, Z.bits_0, Z.pow2_bits_eqb by done.
    destruct (Z.eqb_spec n m) as [<-|_]; [by rewrite Hb|apply andb_false_r].
Qed.

Lemma tap_callback_reads (mask : Z) (st : State) (type_ : CGEventType)
    (e1 e2 : CGEvent) :
  kCGKeyboardEventKeycode e1 = kCGKeyboardEventKeycode e2 →
  modifier_bit mask e1 = modifier_bit mask e2 →
  (tap_callback mask st type_ e1).2 = (tap_callback mask st type_ e2).2 ∧
  ((tap_callback mask st type_ e1).1 = None ↔
   (tap_callback mask st type_ e2).1 = None).
Proof.
  unfold modifier_bit. intros Hk Hbit.
  assert (Hfwd : ∀ st' : State,
    (Some e1, st').2 = (Some e2, st').2 ∧
    ((Some e1, st').1 = None ↔ (Some e2, st').1 = None)).
  { intros st'. split; [done|]. by split. }
  destruct type_; cbn; rewrite ?Hbit, ?Hk; try apply Hfwd.
  destruct (truthy_int (Z.land (CGEventGetFlags e2) mask)); [|apply Hfwd].
  destruct (mapping st !! _) as [T|]; [|apply Hfwd].
  destruct (truthy_str T && _); [done|apply Hfwd].
Qed.

(** X14. With a one-bit mask [2 ^ n], the callback reads nothing of an
    event but its keycode and bit [n] of its flags: two events that agree
    on these leave the same state and are both swallowed or both passed
    on, whatever other modifier bits (Shift, Command, ...) differ. *)
Theorem only_modifier_bit_matters (n : Z) (st : State) (type_ : CGEventType)
    (e1 e2 : CGEvent) :
  0 ≤ n →
  kCGKeyboardEventKeycode e1 = kCGKeyboardEventKeycode e2 →
  Z.testbit (CGEventGetFlags e1) n = Z.testbit (CGEventGetFlags e2) n →
  (tap_callback (2 ^ n) st type_ e1).2 = (tap_callback (2 ^ n) st type_ e2).2 ∧
  ((tap_callback (2 ^ n) st type_ e1).1 = None ↔
   (tap_callback (2 ^ n) st type_ e2).1 = None).
Proof.
  intros Hn Hk Hb. apply tap_callback_reads; [done|].
  unfold modifier_bit. by rewrite !truthy_land_pow2.
Qed.

(** ** The launcher thread *)

Section LauncherProperties.

Context (Popen : nat → list pystr → result unit).

Lemma spawns_step (n : nat) (argv : list pystr)
    (effects : list launcher_effect) :
  spawns (match Popen n argv with
          | Ok _ => [Spawn argv]
          | Raise e => [Spawn argv; FailedToLaunch e]
          end ++ TaskDone :: effects)
  = argv :: spawns effects ∧
  task_dones (match Popen n argv with
              | Ok _ => [Spawn argv]
              | Raise e => [Spawn argv; FailedToLaunch e]
              end ++ TaskDone :: effects)
  = S (task_dones effects).
Proof. by destruct (Popen n argv). Qed.

Lemma _launcher_cons (n : nat) (bundle_id : pystr)
    (rest : list (option pystr)) :
  _launcher Popen n (Some bundle_id :: rest)
  = (match Popen n [py "open"; py "-b"; bundle_id] with
     | Ok _ => [Spawn [py "open"; py "-b"; bundle_id]]
     | Raise e => [Spawn [py "open"; py "-b"; bundle_id]; FailedToLaunch e]
     end ++ TaskDone :: (_launcher Popen (S n) rest).1,
     (_launcher Popen (S n) rest).2).
Proof. cbn [_launcher]. by destruct (_launcher Popen (S n) rest). Qed.

(** X15. The launcher serves the queue in order up to the first [None]:
    it calls [Popen] with [open -b <id>] once for each item in front of
    it, oldest first, and [task_done] once for each, whether the calls
    raise or not, so one failed launch stops none of the later ones. It
    returns when it takes the [None], touching nothing behind it, and
    otherwise ends blocked on the empty queue. *)
Theorem launcher_serves_in_order (n : nat) (q : list (option pystr)) :
  spawns (_launcher Popen n q).1
  = (λ bundle_id, [py "open"; py "-b"; bundle_id]) <$> before_sentinel q ∧
  task_dones (_launcher Popen n q).1 = length (before_sentinel q) ∧
  (_launcher Popen n q).2
  = match drop (length (before_sentinel q)) q with
    | [] => Waiting
    | _ :: rest => Returned rest
    end.
Proof.
  revert n. induction q as [|[bundle_id|] rest IH]; intros n; [done| |done].
  rewrite _launcher_cons. cbn [fst snd before_sentinel length drop fmap
                               list_fmap].
  destruct (IH (S n)) as (Hs & Hd & Hend).
  destruct (spawns_step n [py "open"; py "-b"; bundle_id]
              (_launcher Popen (S n) rest).1) as [-> ->].
  by rewrite Hs, Hd, Hend.
Qed.

(** On a queue that holds targets only, the loop does not return. *)
Lemma _launcher_targets_only (n : nat) (q : list pystr) :
  spawns (_launcher Popen n (Some <$> q)).1
  = (λ bundle_id, [py "open"; py "-b"; bundle_id]) <$> q ∧
  (_launcher Popen n (Some <$> q)).2 = Waiting.
Proof.
  revert n. induction q as [|bundle_id q IH]; intros n; [done|].
  cbn [fmap list_fmap]. rewrite _launcher_cons. cbn [fst snd].
  destruct (IH (S n)) as [Hs Hend].
  destruct (spawns_step n [py "open"; py "-b"; bundle_id]
              (_launcher Popen (S n) (Some <$> q)).1) as [-> _].
  by rewrite Hs, Hend.
Qed.

(** X16. Dispatcher and launcher together: for the launches queued by any
    sequence of events, starting from an empty queue, the launcher makes
    one [Popen] call per swallowed event, in the order the keys fired,
    and is then waiting for more. It has not returned: the dispatcher
    never queues the [None] that would stop it. *)
Theorem every_swallowed_key_is_launched (mask : Z) (st : State)
    (evs : list (CGEventType * CGEvent)) :
  _launch_q st = [] →
  spawns (_launcher Popen 0 (Some <$> _launch_q (run mask st evs).2)).1
  = (λ bundle_id, [py "open"; py "-b"; bundle_id])
      <$> _launch_q (run mask st evs).2 ∧
  length (spawns (_launcher Popen 0
                    (Some <$> _launch_q (run mask st evs).2)).1)
  = suppressed (run mask st evs).1 ∧
  (_launcher Popen 0 (Some <$> _launch_q (run mask st evs).2)).2 = Waiting.
Proof.
  intros Hq.
  pose proof (run_queue_length mask st evs) as Hlen.
  rewrite Hq in Hlen. cbn in Hlen.
  destruct (_launcher_targets_only 0 (_launch_q (run mask st evs).2))
    as [Hs Hend].
  split_and!; try done.
  by rewrite Hs, length_fmap.
Qed.

End LauncherProperties.

(** ** The config watcher's handler *)

Section WatcherProperties.

Implicit Types (p d name : pystr) (c : N) (st : State).

Lemma rfind_notin c p : c ∉ p → rfind c p = -1.
Proof.
  induction p as [|x p IH]; [done|].
  intros [Hne Hnotin]%not_elem_of_cons. cbn. rewrite IH by done. cbn.
  destruct (N.eqb_spec x c); [congruence|done].
Qed.

Lemma rfind_last c d name :
  c ∉ name → rfind c (d ++ c :: name) = Z.of_nat (length d).
Proof.
  intros Hnotin. induction d as [|x d IH].
  - cbn. rewrite rfind_notin by done. cbn. by rewrite N.eqb_refl.
  - cbn [app rfind length]. rewrite IH.
    destruct (Z.leb_spec 0 (Z.of_nat (length d))); lia.
Qed.

Lemma basename_after_sep d name :
  47%N ∉ name → basename (d ++ 47%N :: name) = name.
Proof.
  intros Hnotin. unfold basename. rewrite rfind_last by done.
  replace (Z.to_nat (Z.of_nat (length d) + 1)) with (length (d ++ [47%N]))
    by (rewrite length_app; cbn; lia).
  by rewrite (cons_middle 47%N d name), (app_assoc d [47%N] name),
    drop_app_length.
Qed.

Lemma basename_no_sep name : 47%N ∉ name → basename name = name.
Proof. intros Hnotin. unfold basename. by rewrite rfind_notin. Qed.

Lemma last_sep_split p :
  47%N ∉ p ∨ ∃ d name, p = d ++ 47%N :: name ∧ 47%N ∉ name.
Proof.
  induction p as [|x p [Hnotin|(d & name & -> & Hnotin)]].
  - left. apply not_elem_of_nil.
  - destruct (decide (x = 47%N)) as [->|Hne].
    + right. by exists [], p.
    + left. by apply not_elem_of_cons.
  - right. by exists (x :: d), name.
Qed.

Lemma basename_has_no_sep p : 47%N ∉ basename p.
Proof.
  destruct (last_sep_split p) as [Hnotin|(d & name & -> & Hnotin)].
  - by rewrite basename_no_sep.
  - by rewrite basename_after_sep.
Qed.

Context (HOPBOP_CONFIG : pystr) (abspath : pystr → pystr).

Local Abbreviation on_modified := (on_modified HOPBOP_CONFIG abspath).

(** X17. The handler reloads on an event for the config path itself and
    on an event for a file with the config file's name in any directory
    (as when an editor writes a temporary file and renames it): it then
    prints the reload notice and does what [load_mappings] does on the
    file's content. *)
Theorem handler_reloads_on_config_name d (src : config_source) st :
  on_modified HOPBOP_CONFIG src st
  = ((load_mappings src st).1,
     ConfigChanged :: (FromLoader <$> (load_mappings src st).2)) ∧
  on_modified (d ++ 47%N :: basename HOPBOP_CONFIG) src st
  = ((load_mappings src st).1,
     ConfigChanged :: (FromLoader <$> (load_mappings src st).2)).
Proof.
  unfold on_modified. split.
  - rewrite (bool_decide_eq_true_2 (abspath HOPBOP_CONFIG = _)) by done.
    cbn. by destruct (load_mappings src st).
  - rewrite (bool_decide_eq_true_2 (basename _ = _))
      by apply basename_after_sep, basename_has_no_sep.
    rewrite orb_true_r. by destruct (load_mappings src st).
Qed.

(** X18. The handler changes nothing but [mapping], and that only for a
    matching path and a file that could be read: in every other case (a
    path that matches neither by absolute path nor by name, or a matching
    path whose file cannot be read) the state is exactly what it was. *)
Theorem handler_changes_mapping_only (src_path : pystr)
    (src : config_source) st :
  (on_modified src_path src st).1 = st ∨
  (abspath src_path = abspath HOPBOP_CONFIG ∨
   basename src_path = basename HOPBOP_CONFIG) ∧
  ∃ raw, src = Opened (file_of_lines raw) ∧
    (on_modified src_path src st).1
    = set_mapping (dict_of_pairs (zip HOTKEY_KEYCODES (spec_targets raw))) st.
Proof.
  unfold on_modified.
  destruct (bool_decide (abspath src_path = abspath HOPBOP_CONFIG)
            || bool_decide (basename src_path = basename HOPBOP_CONFIG))
    eqn:Hmatch; [|by left].
  apply orb_true_iff in Hmatch.
  rewrite !bool_decide_eq_true in Hmatch.
  destruct src as [f|e].
  - destruct (read_fails f) eqn:Hf.
    + left. destruct (stripped_lines_read_fails f Hf) as [e He].
      unfold load_mappings, load_mappings_try. cbn. by rewrite He.
    + right. split; [done|].
      destruct (readable_file_of_lines f Hf) as [raw ->].
      exists raw. split; [done|]. by rewrite load_mappings_readable.
  - left. done.
Qed.

End WatcherProperties.

(** ** The further properties on the sample session *)

Lemma blank_file_clears_mapping_witness :
  load_mappings (Opened (file_of_lines [py "  " ++ [10%N]; [10%N]])) loaded
  = (set_mapping ∅ loaded, []).
Proof.
  apply (blank_file_clears_mapping [py "  " ++ [10%N]; [10%N]] loaded).
  repeat constructor.
Defined.

Lemma installed_table_clean_witness :
  (size (mapping loaded) ≤ 9)%nat ∧
  ∀ k t, mapping loaded !! k = Some t →
    k ∈ HOTKEY_KEYCODES ∧ t ≠ [] ∧ strip t = t.
Proof. exact (installed_table_clean (mapping loaded) installed_loaded). Defined.

(** Option+1 has fired and 1 is still down when the file is rewritten
    with another target for slot 1. *)
Lemma reload_keeps_debounce_witness :
  _pressed_fired
    (load_mappings (Opened (file_of_lines [py "com.app.Nine"]))
       fired_untracked).1 = _pressed_fired fired_untracked ∧
  _launch_q
    (load_mappings (Opened (file_of_lines [py "com.app.Nine"]))
       fired_untracked).1 = _launch_q fired_untracked ∧
  tap_callback alt_mask
    (load_mappings (Opened (file_of_lines [py "com.app.Nine"]))
       fired_untracked).1 kCGEventKeyDown option_1_down
  = (Some option_1_down,
     (load_mappings (Opened (file_of_lines [py "com.app.Nine"]))
        fired_untracked).1).
Proof.
  destruct (reload_keeps_debounce alt_mask
              (Opened (file_of_lines [py "com.app.Nine"])) fired_untracked)
    as (_ & Hp & Hq & _ & Hheld).
  split; [exact Hp|]. split; [exact Hq|].
  apply (Hheld 18 option_1_down).
  - apply (bool_decide_unpack (18 ∈ _pressed_fired fired_untracked)).
    by vm_compute.
  - reflexivity.
Defined.

(** Slot 1 is retargeted; slot 2 loses its target. *)
Lemma reload_takes_effect_witness :
  ((tap_callback alt_mask
      (load_mappings (Opened (file_of_lines [py "com.app.Nine"])) loaded).1
      kCGEventKeyDown option_1_down).1 = None ∧
   _launch_q
     (tap_callback alt_mask
        (load_mappings (Opened (file_of_lines [py "com.app.Nine"])) loaded).1
        kCGEventKeyDown option_1_down).2
   = _launch_q loaded ++ [py "com.app.Nine"]) ∧
  tap_callback alt_mask
    (load_mappings (Opened (file_of_lines [py "com.app.Nine"])) loaded).1
    kCGEventKeyDown (mkEvent 524288 19)
  = (Some (mkEvent 524288 19),
     (load_mappings (Opened (file_of_lines [py "com.app.Nine"])) loaded).1).
Proof.
  split.
  - apply (reload_takes_effect alt_mask [py "com.app.Nine"] loaded 0 18
             option_1_down); try reflexivity.
    apply not_elem_of_empty.
  - apply (reload_takes_effect alt_mask [py "com.app.Nine"] loaded 1 19
             (mkEvent 524288 19)); try reflexivity.
    apply not_elem_of_empty.
Defined.

Lemma alt_down_follows_last_flags_event_witness :
  _alt_down
    (run alt_mask loaded
       ([(kCGEventFlagsChanged, option_pressed)]
        ++ (kCGEventFlagsChanged, option_released)
           :: [(kCGEventKeyDown, option_1_down);
               (kCGEventKeyUp, plain_1_up)])).2
  = modifier_bit alt_mask option_released.
Proof.
  apply (alt_down_follows_last_flags_event alt_mask loaded
           [(kCGEventFlagsChanged, option_pressed)] option_released
           [(kCGEventKeyDown, option_1_down); (kCGEventKeyUp, plain_1_up)]).
  repeat (constructor; [discriminate|]). constructor.
Defined.

(** While 1 stays down after Option+1: Option+3, the release of 3 and a
    further modifier-changed event with Option still held. *)
Lemma debounce_holds_until_release_witness :
  18 ∈ _pressed_fired
         (run alt_mask fired_tracked
            [(kCGEventKeyDown, option_3_down);
             (kCGEventKeyUp, mkEvent 524288 20);
             (kCGEventFlagsChanged, option_pressed)]).2 ∧
  run alt_mask fired_tracked
    ([(kCGEventKeyDown, option_3_down);
      (kCGEventKeyUp, mkEvent 524288 20);
      (kCGEventFlagsChanged, option_pressed)]
     ++ [(kCGEventKeyDown, option_1_down)])
  = ((run alt_mask fired_tracked
        [(kCGEventKeyDown, option_3_down);
         (kCGEventKeyUp, mkEvent 524288 20);
         (kCGEventFlagsChanged, option_pressed)]).1 ++ [Some option_1_down],
     (run alt_mask fired_tracked
        [(kCGEventKeyDown, option_3_down);
         (kCGEventKeyUp, mkEvent 524288 20);
         (kCGEventFlagsChanged, option_pressed)]).2).
Proof.
  apply (debounce_holds_until_release alt_mask fired_tracked 18
           [(kCGEventKeyDown, option_3_down);
            (kCGEventKeyUp, mkEvent 524288 20);
            (kCGEventFlagsChanged, option_pressed)] option_1_down).
  - apply (bool_decide_unpack (18 ∈ _pressed_fired fired_tracked)).
    by vm_compute.
  - repeat (constructor; [split; intros [H1 H2]; discriminate|]).
    constructor.
  - reflexivity.
Defined.

Lemma main_without_config_forwards_all_witness :
  ∃ st0 out,
    main broken_config (Some 7) = RunLoop st0 out ∧
    mapping st0 = ∅ ∧
    (run alt_mask st0
       [(kCGEventKeyDown, option_1_down); (kCGEventKeyUp, plain_1_up)]).1
    = Some <$> [(kCGEventKeyDown, option_1_down);
                (kCGEventKeyUp, plain_1_up)].*2 ∧
    _launch_q
      (run alt_mask st0
         [(kCGEventKeyDown, option_1_down); (kCGEventKeyUp, plain_1_up)]).2
    = [].
Proof.
  apply (main_without_config_forwards_all alt_mask broken_config 7
           [(kCGEventKeyDown, option_1_down); (kCGEventKeyUp, plain_1_up)]).
  reflexivity.
Defined.

Lemma running_program_invariant_witness :
  installed
    (mapping
       (exec alt_mask (set_tap_port (Some 7%Z) loaded)
          [Deliver kCGEventKeyDown option_1_down; Reload broken_config;
           Deliver kCGEventTapDisabledByTimeout option_1_down])) ∧
  _pressed_fired
    (exec alt_mask (set_tap_port (Some 7%Z) loaded)
       [Deliver kCGEventKeyDown option_1_down; Reload broken_config;
        Deliver kCGEventTapDisabledByTimeout option_1_down])
    ⊆ list_to_set HOTKEY_KEYCODES ∧
  (size
     (_pressed_fired
        (exec alt_mask (set_tap_port (Some 7%Z) loaded)
           [Deliver kCGEventKeyDown option_1_down; Reload broken_config;
            Deliver kCGEventTapDisabledByTimeout option_1_down])) ≤ 9)%nat ∧
  Forall (λ t, t ≠ [] ∧ strip t = t)
    (_launch_q
       (exec alt_mask (set_tap_port (Some 7%Z) loaded)
          [Deliver kCGEventKeyDown option_1_down; Reload broken_config;
           Deliver kCGEventTapDisabledByTimeout option_1_down])) ∧
  _tap_port
    (exec alt_mask (set_tap_port (Some 7%Z) loaded)
       [Deliver kCGEventKeyDown option_1_down; Reload broken_config;
        Deliver kCGEventTapDisabledByTimeout option_1_down]) = Some 7.
Proof.
  apply (running_program_invariant alt_mask sample_config 7
           (set_tap_port (Some 7%Z) loaded)
           (Starting
              :: (LoaderLine <$> (load_mappings sample_config initial_state).2)
              ++ [Listening])).
  reflexivity.
Defined.

(** Option+1 and Option+Shift+1 (bit 17 is Shift). *)
Lemma only_modifier_bit_matters_witness :
  (tap_callback (2 ^ 19) loaded kCGEventKeyDown option_1_down).2
  = (tap_callback (2 ^ 19) loaded kCGEventKeyDown (mkEvent 655360 18)).2 ∧
  ((tap_callback (2 ^ 19) loaded kCGEventKeyDown option_1_down).1 = None ↔
   (tap_callback (2 ^ 19) loaded kCGEventKeyDown (mkEvent 655360 18)).1
   = None).
Proof.
  apply (only_modifier_bit_matters 19 loaded kCGEventKeyDown option_1_down
           (mkEvent 655360 18)).
  - lia.
  - reflexivity.
  - reflexivity.
Defined.

(** Two launches are queued and both spawns fail. *)
Lemma every_swallowed_key_is_launched_witness :
  spawns
    (_launcher (λ _ _, Raise (py "No such file")) 0
       (Some <$> _launch_q
          (run alt_mask loaded
             [(kCGEventKeyDown, option_1_down);
              (kCGEventKeyDown, mkEvent 524288 19)]).2)).1
  = [[py "open"; py "-b"; py "com.app.One"];
     [py "open"; py "-b"; py "com.app.Two"]].
Proof.
  destruct (every_swallowed_key_is_launched
              (λ _ _, Raise (py "No such file")) alt_mask loaded
              [(kCGEventKeyDown, option_1_down);
               (kCGEventKeyDown, mkEvent 524288 19)]) as (Hs & _ & _).
  - reflexivity.
  - rewrite Hs. reflexivity.
Defined.
